(** * Task manager of the video pipeline: model and verified properties

    Shallow embedding of [src/processors/task.py] (class [TaskManager] and
    dataclass [Task]).  Python [int] is [Z], [str] is [string], [dict] is
    [gmap], [set] is [gset].  Every method is a function from the manager's
    state to an [outcome]: it returns, raises, or blocks for ever on
    [self.lock], which is a non-reentrant [threading.Lock]. *)

From stdpp Require Import gmap strings list fin_maps.
From Stdlib Require Import ZArith Sorted.

Local Open Scope string_scope.
Local Open Scope list_scope.
Local Open Scope Z_scope.

(** ** [queue.PriorityQueue] holding [(neg_priority, task_id)] tuples

    The standard-library queue is modelled by what a caller can observe:
    a multiset of tuples from which [get] takes a least one under Python's
    tuple order.  Tuples that compare equal are equal values, so the
    multiset is kept as an ascending list. *)
Module PQ.

Definition entry : Type := Z * string.

(* Python tuple comparison [a <= b] on (int, str). *)
Definition entry_leb (a b : entry) : bool :=
  (a.1 <? b.1) || ((a.1 =? b.1) && String.leb a.2 b.2).

Definition t : Type := list entry.

Definition new : t := [].

Fixpoint put (e : entry) (q : t) : t :=
  match q with
  | [] => [e]
  | x :: q' => if entry_leb e x then e :: q else x :: put e q'
  end.

(* [get(block=False)]: [None] stands for [queue.Empty]. *)
Definition get (q : t) : option (entry * t) :=
  match q with
  | [] => None
  | e :: q' => Some (e, q')
  end.

(* The queue after [put] of every tuple of [es], first to last. *)
Definition puts (es : list entry) : t := foldl (λ q e, put e q) new es.

Definition qsize (q : t) : Z := Z.of_nat (length q).

Definition empty (q : t) : bool :=
  match q with [] => true | _ => false end.

End PQ.

(** ** Data *)

Record Task := mkTask {
  task_id : string;
  video_info : gmap string Z;
  status : string;
  priority : Z;
  retry_count : Z;
  progress : Z;
  error : option string;
  created_at : Z;
  updated_at : Z
}.

Record TaskManager := mkTaskManager {
  batch_size : Z;
  tasks : gmap string Task;
  task_queue : PQ.t;
  lock : bool;                      (* threading.Lock: [true] while held *)
  status_counts : gmap string Z
}.

(* Assignments to the fields of a task object. *)
Definition set_status (v : string) (t : Task) : Task :=
  mkTask (task_id t) (video_info t) v (priority t) (retry_count t)
         (progress t) (error t) (created_at t) (updated_at t).
Definition set_retry_count (v : Z) (t : Task) : Task :=
  mkTask (task_id t) (video_info t) (status t) (priority t) v
         (progress t) (error t) (created_at t) (updated_at t).
Definition set_progress (v : Z) (t : Task) : Task :=
  mkTask (task_id t) (video_info t) (status t) (priority t) (retry_count t)
         v (error t) (created_at t) (updated_at t).
Definition set_error (v : option string) (t : Task) : Task :=
  mkTask (task_id t) (video_info t) (status t) (priority t) (retry_count t)
         (progress t) v (created_at t) (updated_at t).
Definition set_updated_at (v : Z) (t : Task) : Task :=
  mkTask (task_id t) (video_info t) (status t) (priority t) (retry_count t)
         (progress t) (error t) (created_at t) v.

Definition set_tasks (m : gmap string Task) (s : TaskManager) : TaskManager :=
  mkTaskManager (batch_size s) m (task_queue s) (lock s) (status_counts s).
Definition set_task_queue (q : PQ.t) (s : TaskManager) : TaskManager :=
  mkTaskManager (batch_size s) (tasks s) q (lock s) (status_counts s).
Definition set_lock (b : bool) (s : TaskManager) : TaskManager :=
  mkTaskManager (batch_size s) (tasks s) (task_queue s) b (status_counts s).
Definition set_status_counts (c : gmap string Z) (s : TaskManager) : TaskManager :=
  mkTaskManager (batch_size s) (tasks s) (task_queue s) (lock s) c.

(* Exceptions the methods raise. *)
Inductive exn :=
  | TaskNotFound              (* Exception("任务不存在") *)
  | NotFailed                 (* Exception("只能重试失败的任务") *)
  | KeyError (k : string).    (* subscript or [del] on a missing dict key *)

(** ** Effects: state, exceptions, and the lock *)

Inductive outcome (A : Type) :=
  | Ret (a : A) (s : TaskManager)
  | Raise (e : exn) (s : TaskManager)
  | Blocked (s : TaskManager).
Arguments Ret {A} a s.
Arguments Raise {A} e s.
Arguments Blocked {A} s.

Definition M (A : Type) : Type := TaskManager → outcome A.

#[export] Instance M_ret : MRet M := λ A a s, Ret a s.
#[export] Instance M_bind : MBind M := λ A B f c s,
  match c s with
  | Ret a s' => f a s'
  | Raise e s' => Raise e s'
  | Blocked s' => Blocked s'
  end.

Definition raise {A} (e : exn) : M A := λ s, Raise e s.
Definition gets {A} (f : TaskManager → A) : M A := λ s, Ret (f s) s.
Definition modify (f : TaskManager → TaskManager) : M () := λ s, Ret () (f s).

(* [with self.lock: body].  Acquiring a lock that is already held never
   comes back; the lock is released on return and on exception. *)
Definition with_lock {A} (body : M A) : M A := λ s,
  if lock s then Blocked s
  else match body (set_lock true s) with
       | Ret a s' => Ret a (set_lock false s')
       | Raise e s' => Raise e (set_lock false s')
       | Blocked s' => Blocked s'
       end.

(* [self.status_counts[k] += d] *)
Definition counts_add (k : string) (d : Z) : M () := λ s,
  match status_counts s !! k with
  | Some v => Ret () (set_status_counts (<[k := v + d]> (status_counts s)) s)
  | None => Raise (KeyError k) s
  end.

(* [task = self.tasks.get(task_id); if not task: raise Exception(...)] *)
Definition find_task (id : string) : M Task := λ s,
  match tasks s !! id with
  | Some t => Ret t s
  | None => Raise TaskNotFound s
  end.

(* The task object stored under [id] after assignments to its fields. *)
Definition store_task (id : string) (t : Task) : M () :=
  modify (λ s, set_tasks (<[id := t]> (tasks s)) s).

(* [del self.tasks[id]] *)
Definition del_task (id : string) : M () := λ s,
  match tasks s !! id with
  | Some _ => Ret () (set_tasks (delete id (tasks s)) s)
  | None => Raise (KeyError id) s
  end.

(* [self.task_queue.put(e)]; the queue is unbounded, so this never fails. *)
Definition queue_put (e : PQ.entry) : M () :=
  modify (λ s, set_task_queue (PQ.put e (task_queue s)) s).

(* [for x in l: f(x)] *)
Fixpoint for_each {A} (l : list A) (f : A → M ()) : M () :=
  match l with
  | [] => mret ()
  | x :: l' => f x ;; for_each l' f
  end.

(** ** [TaskManager.__init__] *)

Definition init (batch : Z) : TaskManager :=
  {| batch_size := batch;
     tasks := ∅;
     task_queue := PQ.new;
     lock := false;
     status_counts :=
       <["failed" := 0]> (<["completed" := 0]>
         (<["processing" := 0]> (<["pending" := 0]> ∅))) |}.

(** ** Methods

    [uid] is the string [uuid.uuid4()] produced for the call and [now] the
    reading of [datetime.now()] during it; the two default factories of
    [Task] get the same reading.  The payload [video_info] is kept as a dict
    of integers: the manager reads its "priority" key only, an [int] as the
    field [Task.priority] is declared. *)

Definition add_task (uid : string) (info : gmap string Z) (now : Z) : M string :=
  with_lock (
    let prio := default 1 (info !! "priority") in
    let task := {| task_id := uid; video_info := info; status := "pending";
                   priority := prio; retry_count := 0; progress := 0;
                   error := None; created_at := now; updated_at := now |} in
    store_task uid task ;;
    counts_add "pending" 1 ;;
    queue_put (- prio, uid) ;;
    mret uid).

Definition get_task_status (id : string) (s : TaskManager) : option string :=
  status <$> tasks s !! id.

Definition update_task_status (id : string) (new_status : string) (now : Z) : M bool :=
  with_lock (
    task ← find_task id ;
    counts_add (status task) (-1) ;;
    counts_add new_status 1 ;;
    store_task id (set_updated_at now (set_status new_status task)) ;;
    mret true).

(** *** [get_next_batch] *)

(* Local variables of the loop.  [popped] is a ghost variable: the tuples
   taken off the queue so far, oldest first. *)
Record scan := mkScan {
  batch : list string;
  seen_tasks : gset string;
  popped : list PQ.entry
}.

Definition scan0 : scan := mkScan [] ∅ [].

Inductive iteration :=
  | Continue (l : scan) (s : TaskManager)   (* go on with the next round *)
  | Break (l : scan) (s : TaskManager)      (* [break] *)
  | Stuck (l : scan) (s : TaskManager).     (* waiting for the lock *)

(* One round of the [for] loop. *)
Definition next_batch_iter (now : Z) (l : scan) (s : TaskManager) : iteration :=
  if bool_decide (batch_size s ≤ Z.of_nat (length (batch l))) then Break l s
  else if PQ.empty (task_queue s) then Break l s
  else
    match PQ.get (task_queue s) with
    | None => Continue l s                  (* queue.Empty, swallowed by [except] *)
    | Some ((neg_priority, id), q) =>
        let s1 := set_task_queue q s in
        let l1 := mkScan (batch l) (seen_tasks l) (popped l ++ [(neg_priority, id)]) in
        if bool_decide (id ∈ seen_tasks l) then Continue l1 s1
        else
          let l2 := mkScan (batch l1) ({[id]} ∪ seen_tasks l1) (popped l1) in
          match tasks s1 !! id with
          | Some task =>
              if bool_decide (status task = "pending") then
                let l3 := mkScan (batch l2 ++ [id]) (seen_tasks l2) (popped l2) in
                match update_task_status id "processing" now s1 with
                | Ret _ s2 => Continue l3 s2
                | Raise _ s2 => Continue l3 s2    (* [except Exception: continue] *)
                | Blocked s2 => Stuck l3 s2
                end
              else
                match queue_put (neg_priority, id) s1 with
                | Ret _ s2 => Continue l2 s2
                | Raise _ s2 => Continue l2 s2
                | Blocked s2 => Stuck l2 s2
                end
          | None => Continue l2 s1
          end
    end.

Inductive loop_end :=
  | Finished (l : scan) (s : TaskManager)
  | Hung (l : scan) (s : TaskManager).

(* [for _ in range(n)] *)
Fixpoint next_batch_loop (now : Z) (n : nat) (l : scan) (s : TaskManager) : loop_end :=
  match n with
  | O => Finished l s
  | S n' =>
      match next_batch_iter now l s with
      | Continue l' s' => next_batch_loop now n' l' s'
      | Break l' s' => Finished l' s'
      | Stuck l' s' => Hung l' s'
      end
  end.

(* [range(min(current_queue_size, self.batch_size * 2))] *)
Definition scan_bound (s : TaskManager) : Z :=
  Z.min (PQ.qsize (task_queue s)) (batch_size s * 2).

(* The body of [get_next_batch] under the lock, with its local variables. *)
Definition next_batch_scan (now : Z) (s : TaskManager) : loop_end :=
  next_batch_loop now (Z.to_nat (scan_bound s)) scan0 s.

Definition get_next_batch (now : Z) : M (list string) :=
  with_lock (λ s,
    match next_batch_scan now s with
    | Finished l s' => Ret (batch l) s'
    | Hung _ s' => Blocked s'
    end).

Definition retry_failed_task (id : string) (now : Z) : M bool :=
  with_lock (
    task ← find_task id ;
    if bool_decide (status task ≠ "failed") then raise NotFailed
    else
      store_task id
        (set_updated_at now (set_error None
           (set_retry_count (retry_count task + 1) (set_status "pending" task)))) ;;
      counts_add "failed" (-1) ;;
      counts_add "pending" 1 ;;
      queue_put (- priority task, id) ;;
      mret true).

Definition update_task_progress (id : string) (value : Z) (now : Z) : M bool :=
  with_lock (
    task ← find_task id ;
    store_task id
      (set_updated_at now (set_progress (Z.max 0 (Z.min 100 value)) task)) ;;
    mret true).

Definition get_task_progress (id : string) (s : TaskManager) : Z :=
  default 0 (progress <$> tasks s !! id).

Definition update_task_error (id : string) (message : string) (now : Z) : M bool :=
  with_lock (
    task ← find_task id ;
    store_task id
      (set_updated_at now (set_status "failed" (set_error (Some message) task))) ;;
    counts_add "processing" (-1) ;;
    counts_add "failed" 1 ;;
    mret true).

Definition get_task_error (id : string) (s : TaskManager) : option string :=
  tasks s !! id ≫= error.

Definition get_task_retry_count (id : string) (s : TaskManager) : Z :=
  default 0 (retry_count <$> tasks s !! id).

(* The ids of the completed tasks.  Python walks the dict in insertion
   order; the loop below deletes every listed id and subtracts one per id,
   so its result does not depend on the order. *)
Definition completed_tasks (s : TaskManager) : list string :=
  (filter (λ kv, status kv.2 = "completed") (map_to_list (tasks s))).*1.

Definition cleanup_completed_tasks : M Z :=
  with_lock (
    ids ← gets completed_tasks ;
    for_each ids (λ id, del_task id ;; counts_add "completed" (-1)) ;;
    mret (Z.of_nat (length ids))).

Definition get_task_stats (s : TaskManager) : gmap string Z := status_counts s.

(* Unfolds the monadic plumbing of a method body. *)
Ltac unfold_M :=
  unfold mbind, M_bind, mret, M_ret, find_task, counts_add, store_task,
    del_task, queue_put, raise, gets, modify; simpl.


(** ** Calls and reachable states *)

(* The state a call leaves behind, whatever its outcome. *)
Definition state_of {A} (o : outcome A) : TaskManager :=
  match o with Ret _ s | Raise _ s | Blocked s => s end.

(* The state once the call has returned or raised; [None] when it never
   comes back. *)
Definition after {A} (o : outcome A) : option TaskManager :=
  match o with
  | Ret _ s | Raise _ s => Some s
  | Blocked _ => None
  end.

Inductive call :=
  | AddTask (uid : string) (info : gmap string Z)
  | UpdateTaskStatus (id new_status : string)
  | GetNextBatch
  | RetryFailedTask (id : string)
  | UpdateTaskProgress (id : string) (value : Z)
  | UpdateTaskError (id message : string)
  | CleanupCompletedTasks.

(* A call with its result dropped. *)
Definition void {A} (o : outcome A) : outcome () :=
  match o with
  | Ret _ s => Ret () s
  | Raise e s => Raise e s
  | Blocked s => Blocked s
  end.

Definition perform (c : call) (now : Z) (s : TaskManager) : outcome () :=
  match c with
  | AddTask uid info => void (add_task uid info now s)
  | UpdateTaskStatus id st => void (update_task_status id st now s)
  | GetNextBatch => void (get_next_batch now s)
  | RetryFailedTask id => void (retry_failed_task id now s)
  | UpdateTaskProgress id v => void (update_task_progress id v now s)
  | UpdateTaskError id msg => void (update_task_error id msg now s)
  | CleanupCompletedTasks => void (cleanup_completed_tasks s)
  end.

Definition exec (c : call) (now : Z) (s : TaskManager) : option TaskManager :=
  after (perform c now s).

(* Turns [exec c now s = Some s'] into [s' = ...] with the equation [E] of
   the path taken. *)
Ltac exec_by E H :=
  unfold exec, perform in H; rewrite E in H; simpl in H;
  injection H as <-.

(* [uuid.uuid4()] is taken to produce an id not in use. *)
Definition fresh_uid (c : call) (s : TaskManager) : Prop :=
  match c with
  | AddTask uid _ => tasks s !! uid = None
  | _ => True
  end.

(* States reached from a new manager by calls satisfying [allowed]. *)
Inductive reachable_by (allowed : call → TaskManager → Prop) (b : Z)
    : TaskManager → Prop :=
  | reach_init : reachable_by allowed b (init b)
  | reach_call s c now s' :
      reachable_by allowed b s →
      fresh_uid c s → allowed c s →
      exec c now s = Some s' →
      reachable_by allowed b s'.

(* Every sequence of calls of the public methods. *)
Definition reachable : Z → TaskManager → Prop := reachable_by (λ _ _, True).

(** ** Counting *)

Definition statuses : list string := ["pending"; "processing"; "completed"; "failed"].

(* Proves [k ∈ statuses] for a literal [k]. *)
Ltac in_statuses := unfold statuses; rewrite ?elem_of_cons; auto 10.

(* What every call keeps: the lock is free between calls, the counters
   dict has exactly the four keys, every task carries one of them. *)
Definition well_formed (s : TaskManager) : Prop :=
  lock s = false ∧
  dom (status_counts s) = list_to_set statuses ∧
  (∀ id task, tasks s !! id = Some task → status task ∈ statuses).

(* Everything but the queue is the same in [s] and [s']. *)
Definition same_records (s s' : TaskManager) : Prop :=
  tasks s' = tasks s ∧ status_counts s' = status_counts s ∧
  lock s' = lock s ∧ batch_size s' = batch_size s.

(* Loop invariant of [get_next_batch]: no id twice in [batch], and every
   id of [batch] is in [seen_tasks]. *)
Definition scan_ok (l : scan) : Prop :=
  NoDup (batch l) ∧ ∀ id, id ∈ batch l → id ∈ seen_tasks l.

(* No tuple on the queue names a pending task. *)
Definition stale_queue (s : TaskManager) : Prop :=
  ∀ e task, e ∈ task_queue s → tasks s !! e.2 = Some task → status task ≠ "pending".

(* The requested status of an [update_task_status] call is one of the four. *)
Definition known_status (c : call) : Prop :=
  match c with
  | UpdateTaskStatus _ st => st ∈ statuses
  | _ => True
  end.

(* Number of task objects of the dict [m] whose [status] is [st]. *)
Definition count_in (st : string) (m : gmap string Task) : Z :=
  Z.of_nat (length (filter (λ kv, status kv.2 = st) (map_to_list m))).

(* Number of live task objects whose [status] is [st]. *)
Definition count_status (st : string) (s : TaskManager) : Z :=
  count_in st (tasks s).

(* Number of live task objects. *)
Definition live_tasks (s : TaskManager) : Z := Z.of_nat (size (tasks s)).

(* [d["pending"] + d["processing"] + d["completed"] + d["failed"]] *)
Definition total_of (d : gmap string Z) : option Z :=
  a ← d !! "pending" ;
  b ← d !! "processing" ;
  c ← d !! "completed" ;
  e ← d !! "failed" ;
  Some (a + b + c + e).

(* The sum of the four counters of the dict returned by [get_task_stats]. *)
Definition stats_total (s : TaskManager) : option Z := total_of (get_task_stats s).

(* Every counter is the number of live tasks in that status. *)
Definition counters_exact (s : TaskManager) : Prop :=
  ∀ k, k ∈ statuses → status_counts s !! k = Some (count_status k s).

(* An [update_task_error] call is made on a processing task only. *)
Definition error_on_processing (c : call) (s : TaskManager) : Prop :=
  match c with
  | UpdateTaskError id _ =>
      ∀ task, tasks s !! id = Some task → status task = "processing"
  | _ => True
  end.

(* The fields of every stored task are in range: the task is stored under
   its own id, its retry count is not negative, its progress is within
   0..100. *)
Definition records_ok (s : TaskManager) : Prop :=
  ∀ id task, tasks s !! id = Some task →
    task_id task = id ∧ 0 ≤ retry_count task ∧ 0 ≤ progress task ≤ 100.



(* [n] rounds of [update_task_error] followed by [retry_failed_task] on the
   same task; [None] when one of the calls does not return. *)
Fixpoint fail_and_retry (n : nat) (id message : string) (now : Z)
    (s : TaskManager) : option TaskManager :=
  match n with
  | O => Some s
  | S n' =>
      match update_task_error id message now s with
      | Ret _ s1 =>
          match retry_failed_task id now s1 with
          | Ret _ s2 => fail_and_retry n' id message now s2
          | _ => None
          end
      | _ => None
      end
  end.

(** ** Concrete managers used in the examples *)

(* A new manager with [batch_size] 10 and one submitted task. *)
Definition one_pending : TaskManager :=
  state_of (add_task "t1" ∅ 0 (init 10)).

Definition one_processing : TaskManager :=
  state_of (update_task_status "t1" "processing" 1 one_pending).

Definition one_completed : TaskManager :=
  state_of (update_task_status "t1" "completed" 2 one_processing).

(* Two tasks of equal priority, "b" submitted before "a". *)
Definition two_equal : TaskManager :=
  state_of (add_task "a" ∅ 1 (state_of (add_task "b" ∅ 0 (init 10)))).

(* Tasks of priority 1, 10 and 5, submitted in that order. *)
Definition three_priorities : TaskManager :=
  state_of (add_task "normal" {["priority" := 5]} 2
    (state_of (add_task "high" {["priority" := 10]} 1
       (state_of (add_task "low" {["priority" := 1]} 0 (init 10)))))).

(* "t1" has failed while processing and has been retried. *)
Definition one_retried : TaskManager :=
  state_of (retry_failed_task "t1" 3
    (state_of (update_task_error "t1" "boom" 2 one_processing))).

(* [update_task_status] was called on the pending "t1" with a status that
   is not a key of the counters. *)
Definition one_cancelled : TaskManager :=
  state_of (update_task_status "t1" "cancelled" 1 one_pending).

(* [update_task_error] was called on the pending "t1". *)
Definition one_failed_early : TaskManager :=
  state_of (update_task_error "t1" "boom" 1 one_pending).

(* "t1" is processing again after the retry; its two tuples are still on
   the queue. *)
Definition one_queued_twice : TaskManager :=
  state_of (update_task_status "t1" "processing" 4 one_retried).

(* A manager with [batch_size] 0 and one submitted task. *)
Definition zero_batch_pending : TaskManager :=
  state_of (add_task "t1" ∅ 0 (init 0)).

(** * Verified properties *)

(** ** Basic facts about the effects *)

Lemma set_lock_release (s : TaskManager) :
  lock s = false → set_lock false (set_lock true s) = s.
Proof. destruct s; simpl; intros ->; reflexivity. Qed.

Lemma with_lock_held {A} (body : M A) (s : TaskManager) :
  lock s = true → with_lock body s = Blocked s.
Proof. unfold with_lock. intros ->. reflexivity. Qed.

Lemma with_lock_free {A} (body : M A) (s : TaskManager) :
  lock s = false →
  with_lock body s =
    match body (set_lock true s) with
    | Ret a s' => Ret a (set_lock false s')
    | Raise e s' => Raise e (set_lock false s')
    | Blocked s' => Blocked s'
    end.
Proof. unfold with_lock. intros ->. reflexivity. Qed.

(** ** [update_task_status] *)

(* A call on a held lock never comes back. *)
Lemma update_task_status_held (id new_status : string) (now : Z) (s : TaskManager) :
  lock s = true → update_task_status id new_status now s = Blocked s.
Proof. apply with_lock_held. Qed.

Lemma update_task_status_not_found (id new_status : string) (now : Z) (s : TaskManager) :
  lock s = false → tasks s !! id = None →
  update_task_status id new_status now s = Raise TaskNotFound s.
Proof.
  intros Hl Hid. unfold update_task_status. rewrite with_lock_free by done.
  unfold_M. rewrite Hid. by rewrite set_lock_release.
Qed.

Lemma update_task_status_ok (id new_status : string) (now : Z) (s : TaskManager)
    (task : Task) (a b : Z) :
  lock s = false →
  tasks s !! id = Some task →
  status_counts s !! status task = Some a →
  <[status task := a - 1]> (status_counts s) !! new_status = Some b →
  update_task_status id new_status now s =
    Ret true
      (set_tasks (<[id := set_updated_at now (set_status new_status task)]> (tasks s))
         (set_status_counts
            (<[new_status := b + 1]> (<[status task := a - 1]> (status_counts s))) s)).
Proof.
  intros Hl Hid Ha Hb. unfold update_task_status. rewrite with_lock_free by done.
  unfold_M. rewrite Hid. simpl. rewrite Ha. simpl. 
  replace (a + -1) with (a - 1) by lia. rewrite Hb. simpl.
  destruct s; simpl in *; subst. reflexivity.
Qed.

(* The slip: the old counter is decremented before the new key is looked up. *)
Lemma update_task_status_unknown (id new_status : string) (now : Z) (s : TaskManager)
    (task : Task) (a : Z) :
  lock s = false →
  tasks s !! id = Some task →
  status_counts s !! status task = Some a →
  <[status task := a - 1]> (status_counts s) !! new_status = None →
  update_task_status id new_status now s =
    Raise (KeyError new_status)
      (set_status_counts (<[status task := a - 1]> (status_counts s)) s).
Proof.
  intros Hl Hid Ha Hb. unfold update_task_status. rewrite with_lock_free by done.
  unfold_M. rewrite Hid. simpl. rewrite Ha. simpl.
  replace (a + -1) with (a - 1) by lia. rewrite Hb. simpl.
  destruct s; simpl in *; subst. reflexivity.
Qed.

(** C1 (amended).  [update_task_status] checks no transition.  When the id
    is absent it raises and changes nothing.  When the task exists and its
    current status and the requested status are keys of [status_counts], the
    call returns [True] whatever the pair of statuses: it takes one from the
    counter of the current status, adds one to the counter of the requested
    status, and stores the requested status and the new [updated_at]. *)
Theorem update_task_status_any_transition
    (id new_status : string) (now : Z) (s : TaskManager) :
  lock s = false →
  (tasks s !! id = None →
     update_task_status id new_status now s = Raise TaskNotFound s) ∧
  (∀ (task : Task) (a b : Z),
     tasks s !! id = Some task →
     status_counts s !! status task = Some a →
     <[status task := a - 1]> (status_counts s) !! new_status = Some b →
     update_task_status id new_status now s =
       Ret true
         (set_tasks
            (<[id := set_updated_at now (set_status new_status task)]> (tasks s))
            (set_status_counts
               (<[new_status := b + 1]>
                  (<[status task := a - 1]> (status_counts s))) s))).
Proof.
  intros Hl. split.
  - by apply update_task_status_not_found.
  - intros task a b. by apply update_task_status_ok.
Qed.

Lemma update_task_status_any_transition_witness :
  update_task_status "t1" "processing" 3 one_completed =
    Ret true
      (set_tasks
         (<["t1" := mkTask "t1" ∅ "processing" 1 0 0 None 0 3]> (tasks one_completed))
         (set_status_counts
            (<["processing" := 0 + 1]>
               (<["completed" := 1 - 1]> (status_counts one_completed)))
            one_completed)).
Proof.
  apply (proj2 (update_task_status_any_transition
                  "t1" "processing" 3 one_completed eq_refl)
           (mkTask "t1" ∅ "completed" 1 0 0 None 0 2) 1 0);
    vm_compute; reflexivity.
Defined.

(** C1, as stated, fails: on a manager whose task "t1" is [completed],
    [update_task_status "t1" "processing"] raises nothing and the task
    becomes [processing]. *)
Lemma update_task_status_completed_to_processing :
  lock one_completed = false ∧
  get_task_status "t1" one_completed = Some "completed" ∧
  (∀ e s', update_task_status "t1" "processing" 3 one_completed ≠ Raise e s') ∧
  (∃ s', update_task_status "t1" "processing" 3 one_completed = Ret true s' ∧
         get_task_status "t1" s' = Some "processing").
Proof.
  split; [reflexivity|]. split; [reflexivity|]. split.
  - intros e s' H. vm_compute in H. discriminate H.
  - eexists. split; vm_compute; reflexivity.
Qed.

(** ** [update_task_error] *)

Lemma update_task_error_not_found (id message : string) (now : Z) (s : TaskManager) :
  lock s = false → tasks s !! id = None →
  update_task_error id message now s = Raise TaskNotFound s.
Proof.
  intros Hl Hid. unfold update_task_error. rewrite with_lock_free by done.
  unfold_M. rewrite Hid. by rewrite set_lock_release.
Qed.

Lemma update_task_error_ok (id message : string) (now : Z) (s : TaskManager)
    (task : Task) (a b : Z) :
  lock s = false →
  tasks s !! id = Some task →
  status_counts s !! "processing" = Some a →
  status_counts s !! "failed" = Some b →
  update_task_error id message now s =
    Ret true
      (set_tasks
         (<[id := set_updated_at now (set_status "failed" (set_error (Some message) task))]>
            (tasks s))
         (set_status_counts
            (<["failed" := b + 1]> (<["processing" := a - 1]> (status_counts s))) s)).
Proof.
  intros Hl Hid Ha Hb. unfold update_task_error. rewrite with_lock_free by done.
  unfold_M. rewrite Hid. simpl. rewrite Ha. simpl.
  rewrite lookup_insert_ne by done. rewrite Hb. simpl.
  replace (a + -1) with (a - 1) by lia.
  destruct s; simpl in *; subst. reflexivity.
Qed.

(** C3 (amended).  [update_task_error] does not look at the current status.
    It raises, changing nothing, only when the id is absent.  For a task in
    any status it returns [True] and stores status [failed], the message
    as [error] and the new [updated_at], leaving the other tasks, the queue
    and the lock as they were; when the status was [processing], the
    [processing] counter goes down by one and the [failed] counter up by
    one. *)
Theorem update_task_error_any_status
    (id message : string) (now : Z) (s : TaskManager) :
  lock s = false →
  (∃ a, status_counts s !! "processing" = Some a) →
  (∃ b, status_counts s !! "failed" = Some b) →
  (tasks s !! id = None →
     update_task_error id message now s = Raise TaskNotFound s) ∧
  (∀ task : Task,
     tasks s !! id = Some task →
     ∃ s', update_task_error id message now s = Ret true s' ∧
           tasks s' =
             <[id := set_updated_at now
                       (set_status "failed" (set_error (Some message) task))]> (tasks s) ∧
           task_queue s' = task_queue s ∧ lock s' = false ∧
           batch_size s' = batch_size s ∧
           (status task = "processing" →
            ∀ a b, status_counts s !! "processing" = Some a →
                   status_counts s !! "failed" = Some b →
                   status_counts s' =
                     <["failed" := b + 1]>
                       (<["processing" := a - 1]> (status_counts s)))).
Proof.
  intros Hl [a Ha] [b Hb]. split.
  - by apply update_task_error_not_found.
  - intros task Hid. eexists. split.
    + by apply (update_task_error_ok id message now s task a b).
    + simpl. repeat split; try done.
      intros _ a' b' Ha' Hb'. congruence.
Qed.

Lemma update_task_error_any_status_witness :
  ∃ s', update_task_error "t1" "boom" 2 one_processing = Ret true s' ∧
        get_task_status "t1" s' = Some "failed" ∧
        get_task_error "t1" s' = Some "boom" ∧
        status_counts s' !! "processing" = Some 0 ∧
        status_counts s' !! "failed" = Some 1.
Proof.
  destruct (proj2 (update_task_error_any_status "t1" "boom" 2 one_processing
                     eq_refl (ex_intro _ 1 eq_refl) (ex_intro _ 0 eq_refl))
              (mkTask "t1" ∅ "processing" 1 0 0 None 0 1) eq_refl)
    as (s' & Hrun & Htasks & _ & _ & _ & Hcounts).
  exists s'. split; [exact Hrun|].
  unfold get_task_status, get_task_error. rewrite Htasks.
  rewrite (Hcounts eq_refl 1 0 eq_refl eq_refl).
  repeat split; vm_compute; reflexivity.
Defined.

(** C3, as stated, fails: on a task that is still [pending],
    [update_task_error] raises nothing; it returns [True] and the task
    becomes [failed]. *)
Lemma update_task_error_on_pending :
  get_task_status "t1" one_pending = Some "pending" ∧
  (∀ e s', update_task_error "t1" "boom" 1 one_pending ≠ Raise e s') ∧
  (∃ s', update_task_error "t1" "boom" 1 one_pending = Ret true s' ∧
         get_task_status "t1" s' = Some "failed" ∧
         s' ≠ one_pending).
Proof.
  split; [reflexivity|]. split.
  - intros e s' H. vm_compute in H. discriminate H.
  - eexists. split; [vm_compute; reflexivity|]. split; [vm_compute; reflexivity|].
    intros H. apply (f_equal (get_task_status "t1")) in H.
    vm_compute in H. discriminate H.
Qed.

(** ** The other methods, one equation per path *)

Lemma add_task_ok (uid : string) (info : gmap string Z) (now : Z)
    (s : TaskManager) (a : Z) :
  lock s = false →
  status_counts s !! "pending" = Some a →
  add_task uid info now s =
    Ret uid
      (set_task_queue (PQ.put (- default 1 (info !! "priority"), uid) (task_queue s))
         (set_status_counts (<["pending" := a + 1]> (status_counts s))
            (set_tasks
               (<[uid := mkTask uid info "pending" (default 1 (info !! "priority"))
                           0 0 None now now]> (tasks s)) s))).
Proof.
  intros Hl Ha. unfold add_task. rewrite with_lock_free by done.
  unfold_M. rewrite Ha. simpl.
  destruct s; simpl in *; subst. reflexivity.
Qed.

Lemma retry_failed_task_not_found (id : string) (now : Z) (s : TaskManager) :
  lock s = false → tasks s !! id = None →
  retry_failed_task id now s = Raise TaskNotFound s.
Proof.
  intros Hl Hid. unfold retry_failed_task. rewrite with_lock_free by done.
  unfold_M. rewrite Hid. by rewrite set_lock_release.
Qed.

Lemma retry_failed_task_not_failed (id : string) (now : Z) (s : TaskManager)
    (task : Task) :
  lock s = false → tasks s !! id = Some task → status task ≠ "failed" →
  retry_failed_task id now s = Raise NotFailed s.
Proof.
  intros Hl Hid Hst. unfold retry_failed_task. rewrite with_lock_free by done.
  unfold_M. rewrite Hid. simpl. rewrite bool_decide_true by done.
  simpl. by rewrite set_lock_release.
Qed.

Lemma retry_failed_task_ok (id : string) (now : Z) (s : TaskManager)
    (task : Task) (a b : Z) :
  lock s = false → tasks s !! id = Some task → status task = "failed" →
  status_counts s !! "failed" = Some a →
  status_counts s !! "pending" = Some b →
  retry_failed_task id now s =
    Ret true
      (set_task_queue (PQ.put (- priority task, id) (task_queue s))
         (set_status_counts
            (<["pending" := b + 1]> (<["failed" := a - 1]> (status_counts s)))
            (set_tasks
               (<[id := set_updated_at now (set_error None
                          (set_retry_count (retry_count task + 1)
                             (set_status "pending" task)))]> (tasks s)) s))).
Proof.
  intros Hl Hid Hst Ha Hb. unfold retry_failed_task. rewrite with_lock_free by done.
  unfold_M. rewrite Hid. simpl. rewrite bool_decide_false by (intros H; by apply H).
  simpl. rewrite Ha. simpl. rewrite lookup_insert_ne by done. rewrite Hb. simpl.
  replace (a + -1) with (a - 1) by lia.
  destruct s; simpl in *; subst. reflexivity.
Qed.

Lemma update_task_progress_not_found (id : string) (value now : Z) (s : TaskManager) :
  lock s = false → tasks s !! id = None →
  update_task_progress id value now s = Raise TaskNotFound s.
Proof.
  intros Hl Hid. unfold update_task_progress. rewrite with_lock_free by done.
  unfold_M. rewrite Hid. by rewrite set_lock_release.
Qed.

Lemma update_task_progress_ok (id : string) (value now : Z) (s : TaskManager)
    (task : Task) :
  lock s = false → tasks s !! id = Some task →
  update_task_progress id value now s =
    Ret true
      (set_tasks
         (<[id := set_updated_at now
                    (set_progress (Z.max 0 (Z.min 100 value)) task)]> (tasks s)) s).
Proof.
  intros Hl Hid. unfold update_task_progress. rewrite with_lock_free by done.
  unfold_M. rewrite Hid. simpl.
  destruct s; simpl in *; subst. reflexivity.
Qed.

(** ** [cleanup_completed_tasks] *)

Lemma completed_tasks_spec (s : TaskManager) (id : string) :
  id ∈ completed_tasks s ↔
  ∃ task, tasks s !! id = Some task ∧ status task = "completed".
Proof.
  unfold completed_tasks. rewrite list_elem_of_fmap. split.
  - intros ([i task] & -> & Hin). apply list_elem_of_filter in Hin as [Hst Hin].
    apply elem_of_map_to_list in Hin. by exists task.
  - intros (task & Hid & Hst). exists (id, task). split; [done|].
    apply list_elem_of_filter. split; [done|]. by apply elem_of_map_to_list.
Qed.

Lemma completed_tasks_NoDup (s : TaskManager) : NoDup (completed_tasks s).
Proof.
  unfold completed_tasks. apply NoDup_fmap_fst.
  - intros i x y Hx Hy. apply list_elem_of_filter in Hx as [_ Hx], Hy as [_ Hy].
    apply elem_of_map_to_list in Hx, Hy. congruence.
  - apply NoDup_filter, NoDup_map_to_list.
Qed.

Lemma completed_tasks_length (s : TaskManager) :
  Z.of_nat (length (completed_tasks s)) = count_status "completed" s.
Proof. unfold completed_tasks, count_status, count_in. by rewrite length_fmap. Qed.

(* The loop of [cleanup_completed_tasks] on ids that are all present. *)
Lemma cleanup_loop (ids : list string) (s : TaskManager) (c : Z) :
  NoDup ids →
  (∀ id, id ∈ ids → is_Some (tasks s !! id)) →
  status_counts s !! "completed" = Some c →
  for_each ids (λ id, del_task id ;; counts_add "completed" (-1)) s =
    Ret () (set_status_counts
              (<["completed" := c - Z.of_nat (length ids)]> (status_counts s))
              (set_tasks (foldl (λ m id, delete id m) (tasks s) ids) s)).
Proof.
  revert s c. induction ids as [|id ids IH]; intros s c Hnd Hin Hc.
  - simpl. unfold mret, M_ret. f_equal. destruct s; simpl in *.
    unfold set_status_counts, set_tasks; simpl. f_equal.
    rewrite insert_id; [done|]. rewrite Hc. f_equal. lia.
  - apply NoDup_cons in Hnd as [Hni Hnd].
    destruct (Hin id) as [task Hid]; [apply list_elem_of_here|].
    cbn [for_each]. unfold_M. rewrite Hid. simpl. rewrite Hc. simpl.
    rewrite (IH _ (c - 1)); simpl.
    + f_equal. unfold set_status_counts, set_tasks; simpl. f_equal.
      rewrite insert_insert_eq. f_equal. lia.
    + done.
    + intros id' Hid'. rewrite lookup_delete_ne by (intros ->; done).
      apply Hin. by apply list_elem_of_further.
    + by rewrite lookup_insert_eq.
Qed.

Lemma cleanup_completed_tasks_ok (s : TaskManager) (c : Z) :
  lock s = false →
  status_counts s !! "completed" = Some c →
  cleanup_completed_tasks s =
    Ret (count_status "completed" s)
      (set_status_counts
         (<["completed" := c - count_status "completed" s]> (status_counts s))
         (set_tasks (foldl (λ m id, delete id m) (tasks s) (completed_tasks s)) s)).
Proof.
  intros Hl Hc. unfold cleanup_completed_tasks. rewrite with_lock_free by done.
  unfold mbind at 1, M_bind at 1, gets.
  unfold mbind at 1, M_bind at 1.
  assert (completed_tasks (set_lock true s) = completed_tasks s) as -> by done.
  rewrite (cleanup_loop _ _ c); simpl.
  - rewrite completed_tasks_length.
    destruct s; simpl in *; subst. reflexivity.
  - apply completed_tasks_NoDup.
  - intros id Hid. apply completed_tasks_spec in Hid as (task & Hid & _). by exists task.
  - done.
Qed.

(* Deleting listed ids, all present and distinct, removes that many. *)
Lemma size_after_deletes (ids : list string) (m : gmap string Task) :
  NoDup ids →
  (∀ id, id ∈ ids → is_Some (m !! id)) →
  (size (foldl (λ m id, delete id m) m ids) + length ids = size m)%nat.
Proof.
  revert m. induction ids as [|id ids IH]; intros m Hnd Hin; simpl; [lia|].
  apply NoDup_cons in Hnd as [Hni Hnd].
  destruct (Hin id) as [t Ht]; [apply list_elem_of_here|].
  assert (size m ≠ 0)%nat as Hpos.
  { intros H0. apply map_size_empty_inv in H0. subst m. by rewrite lookup_empty in Ht. }
  specialize (IH (delete id m) Hnd).
  rewrite map_size_delete_Some in IH by done.
  rewrite <- Nat.add_succ_comm. simpl. rewrite IH; [lia|].
  intros id' Hid'. rewrite lookup_delete_ne by (intros ->; done).
  apply Hin. by apply list_elem_of_further.
Qed.

Lemma lookup_after_deletes (ids : list string) (m : gmap string Task) (id : string)
    (task : Task) :
  foldl (λ m id, delete id m) m ids !! id = Some task → m !! id = Some task.
Proof.
  revert m. induction ids as [|i ids IH]; intros m; simpl; [done|].
  intros H. apply IH in H. by apply lookup_delete_Some in H as [_ ?].
Qed.

(** ** The order of the priority queue *)

Lemma ascii_compare_trans_le (a b c : Ascii.ascii) :
  Ascii.compare a b ≠ Gt → Ascii.compare b c ≠ Gt → Ascii.compare a c ≠ Gt.
Proof.
  unfold Ascii.compare. rewrite !N.compare_le_iff. intros. by etrans.
Qed.

Lemma string_compare_refl (s : string) : String.compare s s = Eq.
Proof.
  induction s as [|a s IH]; simpl; [done|].
  unfold Ascii.compare. by rewrite N.compare_refl.
Qed.

Lemma string_compare_trans_le (s1 s2 s3 : string) :
  String.compare s1 s2 ≠ Gt → String.compare s2 s3 ≠ Gt →
  String.compare s1 s3 ≠ Gt.
Proof.
  revert s2 s3. induction s1 as [|a s1 IH]; intros [|b s2] [|c s3]; simpl; try done.
  destruct (Ascii.compare a b) eqn:Hab; try done;
    destruct (Ascii.compare b c) eqn:Hbc; try done.
  - apply Ascii.compare_eq_iff in Hab, Hbc. subst.
    unfold Ascii.compare. rewrite N.compare_refl. apply IH.
  - apply Ascii.compare_eq_iff in Hab. subst. by rewrite Hbc.
  - apply Ascii.compare_eq_iff in Hbc. subst. by rewrite Hab.
  - intros _ _. unfold Ascii.compare in *.
    rewrite N.compare_lt_iff in Hab, Hbc.
    assert (Ascii.N_of_ascii a < Ascii.N_of_ascii c)%N as H by (by etrans).
    apply N.compare_lt_iff in H. by rewrite H.
Qed.

Lemma string_leb_trans (s1 s2 s3 : string) :
  String.leb s1 s2 = true → String.leb s2 s3 = true → String.leb s1 s3 = true.
Proof.
  unfold String.leb. intros H1 H2.
  pose proof (string_compare_trans_le s1 s2 s3) as H.
  destruct (String.compare s1 s2), (String.compare s2 s3); try done;
    destruct (String.compare s1 s3); try done; exfalso; by apply H.
Qed.

Lemma string_leb_refl (s : string) : String.leb s s = true.
Proof. unfold String.leb. by rewrite string_compare_refl. Qed.

Lemma entry_leb_total (a b : PQ.entry) :
  PQ.entry_leb a b = true ∨ PQ.entry_leb b a = true.
Proof.
  destruct a as [p i], b as [r j]. unfold PQ.entry_leb. simpl.
  destruct (Z.ltb_spec p r); [by left|].
  destruct (Z.ltb_spec r p); [by right|].
  assert (p = r) as -> by lia. rewrite Z.eqb_refl. simpl.
  apply String.leb_total.
Qed.

Lemma entry_leb_antisym (a b : PQ.entry) :
  PQ.entry_leb a b = true → PQ.entry_leb b a = true → a = b.
Proof.
  destruct a as [p i], b as [r j]. unfold PQ.entry_leb. simpl.
  destruct (Z.ltb_spec p r), (Z.ltb_spec r p); try lia; simpl.
  assert (p = r) as -> by lia. rewrite Z.eqb_refl. simpl.
  intros H1 H2. f_equal. by apply String.leb_antisym.
Qed.

Lemma entry_leb_trans (a b c : PQ.entry) :
  PQ.entry_leb a b = true → PQ.entry_leb b c = true → PQ.entry_leb a c = true.
Proof.
  destruct a as [p i], b as [r j], c as [u k]. unfold PQ.entry_leb. simpl.
  destruct (Z.ltb_spec p r), (Z.ltb_spec r u), (Z.ltb_spec p u); simpl;
    try done; try lia;
    destruct (Z.eqb_spec p r), (Z.eqb_spec r u), (Z.eqb_spec p u); simpl;
    try done; try lia.
  apply string_leb_trans.
Qed.

(* Among equal priorities the order is the order of the id strings. *)
Lemma entry_leb_same_priority (p : Z) (i j : string) :
  PQ.entry_leb (p, i) (p, j) = String.leb i j.
Proof. unfold PQ.entry_leb. simpl. by rewrite Z.ltb_irrefl, Z.eqb_refl. Qed.

Lemma elem_of_put (x e : PQ.entry) (q : PQ.t) :
  x ∈ PQ.put e q ↔ x = e ∨ x ∈ q.
Proof.
  induction q as [|y q IH]; simpl.
  - rewrite list_elem_of_singleton. split; [by left|].
    intros [?|Hx]; [done|]. by apply elem_of_nil in Hx.
  - destruct (PQ.entry_leb e y).
    + by rewrite elem_of_cons.
    + rewrite !elem_of_cons, IH. tauto.
Qed.

Lemma put_Permutation (e : PQ.entry) (q : PQ.t) : PQ.put e q ≡ₚ e :: q.
Proof.
  induction q as [|y q IH]; simpl; [done|].
  destruct (PQ.entry_leb e y); [done|].
  rewrite IH. apply perm_swap.
Qed.

Lemma put_length (e : PQ.entry) (q : PQ.t) : length (PQ.put e q) = S (length q).
Proof. by rewrite put_Permutation. Qed.

Lemma put_Sorted (e : PQ.entry) (q : PQ.t) :
  Sorted (λ a b, PQ.entry_leb a b = true) q →
  Sorted (λ a b, PQ.entry_leb a b = true) (PQ.put e q).
Proof.
  induction q as [|y q IH]; intros Hs; simpl.
  - by repeat constructor.
  - destruct (PQ.entry_leb e y) eqn:Hey.
    + constructor; [done|]. by constructor.
    + apply Sorted_inv in Hs as [Hs Hhd]. constructor; [by apply IH|].
      assert (PQ.entry_leb y e = true) as Hye
        by (destruct (entry_leb_total e y); congruence).
      destruct q as [|z q]; simpl; [by constructor|].
      destruct (PQ.entry_leb e z); constructor; [done|].
      by apply HdRel_inv in Hhd.
Qed.

Lemma puts_snoc (es : list PQ.entry) (e : PQ.entry) :
  PQ.puts (es ++ [e]) = PQ.put e (PQ.puts es).
Proof. unfold PQ.puts. by rewrite foldl_app. Qed.

Lemma puts_Sorted (es : list PQ.entry) :
  Sorted (λ a b, PQ.entry_leb a b = true) (PQ.puts es).
Proof.
  induction es as [|e es IH] using rev_ind; [constructor|].
  rewrite puts_snoc. by apply put_Sorted.
Qed.

Lemma puts_Permutation (es : list PQ.entry) : PQ.puts es ≡ₚ es.
Proof.
  induction es as [|e es IH] using rev_ind; [done|].
  rewrite puts_snoc, put_Permutation, IH. by rewrite Permutation_cons_append.
Qed.

(* The head of an ascending queue is a least tuple. *)
Lemma Sorted_head_least (e : PQ.entry) (q : PQ.t) :
  Sorted (λ a b, PQ.entry_leb a b = true) (e :: q) →
  Forall (λ x, PQ.entry_leb e x = true) q.
Proof.
  intros Hs. apply Sorted_StronglySorted in Hs.
  - by apply StronglySorted_inv in Hs as [_ ?].
  - intros a b c. apply entry_leb_trans.
Qed.

(* Putting a least tuple on an ascending queue puts it in front. *)
Lemma put_least (e : PQ.entry) (q : PQ.t) :
  Forall (λ x, PQ.entry_leb e x = true) q → PQ.put e q = e :: q.
Proof.
  destruct q as [|y q]; simpl; [done|].
  intros H. apply Forall_cons in H as [-> _]. done.
Qed.

(* The queue does not remember the order of arrival. *)
Lemma put_comm (a b : PQ.entry) (q : PQ.t) :
  Sorted (λ a b, PQ.entry_leb a b = true) q →
  PQ.put a (PQ.put b q) = PQ.put b (PQ.put a q).
Proof.
  induction q as [|y q IH]; intros Hs; simpl.
  - destruct (PQ.entry_leb a b) eqn:Hab, (PQ.entry_leb b a) eqn:Hba; try done.
    + by rewrite (entry_leb_antisym a b).
    + destruct (entry_leb_total a b); congruence.
  - apply Sorted_inv in Hs as [Hs _].
    destruct (PQ.entry_leb b y) eqn:Hby, (PQ.entry_leb a y) eqn:Hay; simpl;
      rewrite ?Hby, ?Hay.
    + destruct (PQ.entry_leb a b) eqn:Hab, (PQ.entry_leb b a) eqn:Hba; try done.
      * by rewrite (entry_leb_antisym a b).
      * destruct (entry_leb_total a b); congruence.
    + assert (PQ.entry_leb a b = false) as ->; [|done].
      destruct (PQ.entry_leb a b) eqn:Hab; [|done].
      by rewrite (entry_leb_trans a b y) in Hay.
    + assert (PQ.entry_leb b a = false) as ->; [|done].
      destruct (PQ.entry_leb b a) eqn:Hba; [|done].
      by rewrite (entry_leb_trans b a y) in Hby.
    + by rewrite IH.
Qed.

(** ** [get_next_batch] *)

Section next_batch.

(* The clock reading handed to the rounds of one call. *)
Variable now : Z.

Lemma same_records_refl (s : TaskManager) : same_records s s.
Proof. by repeat split. Qed.

Lemma same_records_trans (s1 s2 s3 : TaskManager) :
  same_records s1 s2 → same_records s2 s3 → same_records s1 s3.
Proof.
  intros (?&?&?&?) (?&?&?&?). repeat split; congruence.
Qed.

(* One round under the held lock: the round touches the queue only, and the
   batch grows only on the path that then waits for the lock. *)
Lemma next_batch_iter_held (l : scan) (s : TaskManager) :
  lock s = true →
  match next_batch_iter now l s with
  | Continue l' s' | Break l' s' => same_records s s' ∧ batch l' = batch l
  | Stuck l' s' => same_records s s' ∧ ∃ id, batch l' = batch l ++ [id]
  end.
Proof.
  intros Hl. unfold next_batch_iter.
  case_bool_decide; [by split; [apply same_records_refl|]|].
  destruct (task_queue s) as [|[np id] q] eqn:Hq; simpl;
    [by split; [apply same_records_refl|]|].
  case_bool_decide; [by repeat split|].
  destruct (tasks s !! id) as [task|] eqn:Hid; [|by repeat split].
  case_bool_decide.
  - rewrite update_task_status_held by done. simpl.
    split; [by repeat split|]. by exists id.
  - by repeat split.
Qed.

Lemma next_batch_loop_held (n : nat) (l : scan) (s : TaskManager) :
  lock s = true →
  match next_batch_loop now n l s with
  | Finished l' s' => same_records s s' ∧ batch l' = batch l
  | Hung l' s' => same_records s s' ∧ ∃ id, batch l' = batch l ++ [id]
  end.
Proof.
  revert l s. induction n as [|n IH]; intros l s Hl; simpl.
  - split; [apply same_records_refl|done].
  - pose proof (next_batch_iter_held l s Hl) as Hit.
    destruct (next_batch_iter now l s) as [l1 s1|l1 s1|l1 s1]; try done.
    destruct Hit as [Hsame Hb].
    assert (lock s1 = true) as Hl1 by (destruct Hsame as (_&_&->&_); done).
    specialize (IH l1 s1 Hl1).
    destruct (next_batch_loop now n l1 s1) as [l2 s2|l2 s2].
    + destruct IH as [Hsame' Hb']. split; [by eapply same_records_trans|congruence].
    + destruct IH as [Hsame' [id Hb']]. split; [by eapply same_records_trans|].
      exists id. congruence.
Qed.

(* What a caller can get out of [get_next_batch]: it never raises, and when
   it returns, the batch is empty and no task or counter has changed. *)
Lemma get_next_batch_returns (s : TaskManager) :
  lock s = false →
  match get_next_batch now s with
  | Ret b s' =>
      b = [] ∧ tasks s' = tasks s ∧ status_counts s' = status_counts s ∧
      lock s' = false ∧ batch_size s' = batch_size s
  | Raise _ _ => False
  | Blocked _ => True
  end.
Proof.
  intros Hl. unfold get_next_batch. rewrite with_lock_free by done.
  unfold next_batch_scan.
  pose proof (next_batch_loop_held (Z.to_nat (scan_bound (set_lock true s)))
                scan0 (set_lock true s) eq_refl) as H.
  destruct (next_batch_loop _ _ _ _) as [l' s'|l' s']; [|done].
  destruct H as [(Ht & Hc & _ & Hb) Hbatch]. simpl in *. done.
Qed.

(* The ghost list grows by at most one tuple per round. *)
Lemma next_batch_iter_popped (l : scan) (s : TaskManager) :
  match next_batch_iter now l s with
  | Continue l' _ | Break l' _ | Stuck l' _ =>
      (length (popped l') ≤ S (length (popped l)))%nat
  end.
Proof.
  unfold next_batch_iter.
  case_bool_decide; [lia|].
  destruct (task_queue s) as [|[np id] q]; simpl; [lia|].
  assert (length (popped l ++ [(np, id)]) = S (length (popped l))) as Hlen
    by (rewrite length_app; simpl; lia).
  case_bool_decide; simpl; [lia|].
  destruct (tasks s !! id) as [task|]; simpl; [|lia].
  case_bool_decide.
  - destruct (update_task_status _ _ _ _); simpl; lia.
  - simpl. lia.
Qed.

Lemma next_batch_loop_popped (n : nat) (l : scan) (s : TaskManager) :
  match next_batch_loop now n l s with
  | Finished l' _ | Hung l' _ => (length (popped l') ≤ n + length (popped l))%nat
  end.
Proof.
  revert l s. induction n as [|n IH]; intros l s; simpl; [lia|].
  pose proof (next_batch_iter_popped l s) as Hit.
  destruct (next_batch_iter now l s) as [l1 s1|l1 s1|l1 s1]; try lia.
  specialize (IH l1 s1). destruct (next_batch_loop now n l1 s1); lia.
Qed.

(* The loop invariant [scan_ok] holds after every round, whoever holds the
   lock. *)
Lemma next_batch_iter_scan_ok (l : scan) (s : TaskManager) :
  scan_ok l →
  match next_batch_iter now l s with
  | Continue l' _ | Break l' _ | Stuck l' _ => scan_ok l'
  end.
Proof.
  intros [Hnd Hsub]. unfold next_batch_iter.
  case_bool_decide; [by split|].
  destruct (task_queue s) as [|[np id] q]; simpl; [by split|].
  case_bool_decide as Hseen; [by split|].
  assert (scan_ok (mkScan (batch l) ({[id]} ∪ seen_tasks l) (popped l ++ [(np, id)])))
    as Hskip.
  { split; simpl; [done|]. intros i Hi. apply elem_of_union_r. by apply Hsub. }
  assert (scan_ok (mkScan (batch l ++ [id]) ({[id]} ∪ seen_tasks l)
                     (popped l ++ [(np, id)]))) as Htake.
  { split; simpl.
    - apply NoDup_app. split; [done|]. split; [|apply NoDup_singleton].
      intros i Hi Hi'. apply list_elem_of_singleton in Hi'. subst i.
      apply Hseen. by apply Hsub.
    - intros i Hi. apply elem_of_app in Hi as [Hi|Hi].
      + apply elem_of_union_r. by apply Hsub.
      + apply list_elem_of_singleton in Hi. subst i. apply elem_of_union_l.
        by apply elem_of_singleton. }
  destruct (tasks s !! id) as [task|]; simpl; [|done].
  case_bool_decide.
  - destruct (update_task_status _ _ _ _); done.
  - done.
Qed.

Lemma next_batch_loop_scan_ok (n : nat) (l : scan) (s : TaskManager) :
  scan_ok l →
  match next_batch_loop now n l s with
  | Finished l' _ | Hung l' _ => scan_ok l'
  end.
Proof.
  revert l s. induction n as [|n IH]; intros l s Hok; simpl; [done|].
  pose proof (next_batch_iter_scan_ok l s Hok) as Hit.
  destruct (next_batch_iter now l s) as [l1 s1|l1 s1|l1 s1]; try done.
  by apply IH.
Qed.

(* One round on an id that is already in [seen_tasks]: the tuple is dropped
   and the batch stays as it is. *)
Lemma next_batch_iter_seen (l : scan) (s : TaskManager)
    (np : Z) (id : string) (q : PQ.t) :
  Z.of_nat (length (batch l)) < batch_size s →
  task_queue s = (np, id) :: q →
  id ∈ seen_tasks l →
  next_batch_iter now l s =
    Continue (mkScan (batch l) (seen_tasks l) (popped l ++ [(np, id)]))
             (set_task_queue q s).
Proof.
  intros Hb Hq Hseen. unfold next_batch_iter.
  rewrite bool_decide_false by lia. rewrite Hq. simpl.
  by rewrite bool_decide_true.
Qed.

(* One round on an id whose task object is gone: the tuple is dropped. *)
Lemma next_batch_iter_missing (l : scan) (s : TaskManager)
    (np : Z) (id : string) (q : PQ.t) :
  Z.of_nat (length (batch l)) < batch_size s →
  task_queue s = (np, id) :: q →
  id ∉ seen_tasks l →
  tasks s !! id = None →
  next_batch_iter now l s =
    Continue (mkScan (batch l) ({[id]} ∪ seen_tasks l) (popped l ++ [(np, id)]))
             (set_task_queue q s).
Proof.
  intros Hb Hq Hseen Hid. unfold next_batch_iter.
  rewrite bool_decide_false by lia. rewrite Hq. simpl.
  rewrite bool_decide_false by done. by rewrite Hid.
Qed.

(* One round on an id whose task is not pending: the tuple goes back on the
   queue. *)
Lemma next_batch_iter_not_pending (l : scan) (s : TaskManager)
    (np : Z) (id : string) (q : PQ.t) (task : Task) :
  Z.of_nat (length (batch l)) < batch_size s →
  task_queue s = (np, id) :: q →
  id ∉ seen_tasks l →
  tasks s !! id = Some task →
  status task ≠ "pending" →
  next_batch_iter now l s =
    Continue (mkScan (batch l) ({[id]} ∪ seen_tasks l) (popped l ++ [(np, id)]))
             (set_task_queue (PQ.put (np, id) q) s).
Proof.
  intros Hb Hq Hseen Hid Hst. unfold next_batch_iter.
  rewrite bool_decide_false by lia. rewrite Hq. simpl.
  rewrite bool_decide_false by done. rewrite Hid.
  rewrite bool_decide_false by done. destruct s; reflexivity.
Qed.

(* One round on a pending task under the held lock: the id is appended and
   the call waits for the lock for ever. *)
Lemma next_batch_iter_pending_held (l : scan) (s : TaskManager)
    (np : Z) (id : string) (q : PQ.t) (task : Task) :
  lock s = true →
  Z.of_nat (length (batch l)) < batch_size s →
  task_queue s = (np, id) :: q →
  id ∉ seen_tasks l →
  tasks s !! id = Some task →
  status task = "pending" →
  next_batch_iter now l s =
    Stuck (mkScan (batch l ++ [id]) ({[id]} ∪ seen_tasks l) (popped l ++ [(np, id)]))
          (set_task_queue q s).
Proof.
  intros Hl Hb Hq Hseen Hid Hst. unfold next_batch_iter.
  rewrite bool_decide_false by lia. rewrite Hq. simpl.
  rewrite bool_decide_false by done. rewrite Hid.
  rewrite bool_decide_true by done.
  by rewrite update_task_status_held.
Qed.

(* A round on a queue without pending tasks goes through, changes the queue
   only and adds no tuple to it. *)
Lemma next_batch_iter_stale (l : scan) (s : TaskManager) :
  stale_queue s →
  match next_batch_iter now l s with
  | Continue l' s' | Break l' s' =>
      same_records s s' ∧ batch l' = batch l ∧
      (∀ e, e ∈ task_queue s' → e ∈ task_queue s)
  | Stuck _ _ => False
  end.
Proof.
  intros Hstale. unfold next_batch_iter.
  case_bool_decide; [by repeat split|].
  destruct (task_queue s) as [|[np id] q] eqn:Hq; simpl;
    [rewrite Hq; by repeat split|].
  assert (∀ e, e ∈ q → e ∈ (np, id) :: q) as Hsub by (intros e; apply list_elem_of_further).
  case_bool_decide; [by repeat split|].
  destruct (tasks s !! id) as [task|] eqn:Hid; [|by repeat split].
  case_bool_decide as Hst.
  - exfalso. apply (Hstale (np, id) task); [rewrite Hq; apply list_elem_of_here|done..].
  - simpl. repeat split; try done.
    intros e He. apply elem_of_put in He as [->|He]; [apply list_elem_of_here|by apply Hsub].
Qed.

Lemma next_batch_loop_stale (n : nat) (l : scan) (s : TaskManager) :
  stale_queue s →
  match next_batch_loop now n l s with
  | Finished l' s' =>
      same_records s s' ∧ batch l' = batch l ∧
      (∀ e, e ∈ task_queue s' → e ∈ task_queue s)
  | Hung _ _ => False
  end.
Proof.
  revert l s. induction n as [|n IH]; intros l s Hstale; simpl.
  - by split; [apply same_records_refl|].
  - pose proof (next_batch_iter_stale l s Hstale) as Hit.
    destruct (next_batch_iter now l s) as [l1 s1|l1 s1|l1 s1]; try done.
    destruct Hit as (Hsame & Hb & Hsub).
    assert (stale_queue s1) as Hstale1.
    { intros e task He Ht. destruct Hsame as (Htasks & _).
      rewrite Htasks in Ht. by apply (Hstale e task); [apply Hsub|]. }
    specialize (IH l1 s1 Hstale1).
    destruct (next_batch_loop now n l1 s1) as [l2 s2|l2 s2]; [|done].
    destruct IH as (Hsame' & Hb' & Hsub').
    split; [by eapply same_records_trans|]. split; [congruence|].
    intros e He. by apply Hsub, Hsub'.
Qed.

Lemma get_next_batch_stale (s : TaskManager) :
  lock s = false → stale_queue s →
  ∃ s', get_next_batch now s = Ret [] s' ∧
        tasks s' = tasks s ∧ status_counts s' = status_counts s ∧
        lock s' = false ∧ batch_size s' = batch_size s ∧
        (∀ e, e ∈ task_queue s' → e ∈ task_queue s).
Proof.
  intros Hl Hstale. unfold get_next_batch. rewrite with_lock_free by done.
  unfold next_batch_scan.
  pose proof (next_batch_loop_stale (Z.to_nat (scan_bound (set_lock true s)))
                scan0 (set_lock true s) Hstale) as H.
  destruct (next_batch_loop _ _ _ _) as [l' s'|l' s']; [|done].
  destruct H as ((Ht & Hc & _ & Hb) & Hbatch & Hsub). simpl in *.
  exists (set_lock false s'). rewrite Hbatch. by repeat split.
Qed.

(* Whenever the least tuple of the queue names a pending task and
   [batch_size] is positive, [get_next_batch] takes that tuple and never
   comes back. *)
Lemma get_next_batch_blocks (s : TaskManager) (np : Z) (id : string)
    (q : PQ.t) (task : Task) :
  lock s = false →
  0 < batch_size s →
  task_queue s = (np, id) :: q →
  tasks s !! id = Some task →
  status task = "pending" →
  get_next_batch now s = Blocked (set_task_queue q (set_lock true s)).
Proof.
  intros Hl Hb Hq Hid Hst. unfold get_next_batch. rewrite with_lock_free by done.
  unfold next_batch_scan, scan_bound, PQ.qsize. simpl. rewrite Hq. simpl length.
  destruct (Z.to_nat (Z.min (Z.of_nat (S (length q))) (batch_size s * 2)))
    as [|n] eqn:Hn; [lia|].
  simpl. rewrite (next_batch_iter_pending_held scan0 (set_lock true s) np id q task);
    try done.
Qed.

End next_batch.

(** ** What [get_next_batch] gives back *)

(** C5 (amended).  The key of a queued task is the tuple
    [(-priority, task_id)]: [add_task] puts that tuple, the queue holds the
    tuples put into it in ascending tuple order, [get] takes a least one, so
    a higher priority comes out first and, among equal priorities, the
    smaller id string comes out first.  The order of arrival plays no part:
    putting two tuples in either order gives the same queue. *)
Theorem queue_key_is_priority_then_id :
  (∀ uid info now s,
     match add_task uid info now s with
     | Ret _ s' =>
         task_queue s' =
           PQ.put (- default 1 (info !! "priority"), uid) (task_queue s)
     | _ => True
     end) ∧
  (∀ es, Sorted (λ a b, PQ.entry_leb a b = true) (PQ.puts es) ∧ PQ.puts es ≡ₚ es) ∧
  (∀ es,
     match PQ.get (PQ.puts es) with
     | Some (e, q) => Forall (λ x, PQ.entry_leb e x = true) q
     | None => es = []
     end) ∧
  (∀ a b es,
     PQ.put a (PQ.put b (PQ.puts es)) = PQ.put b (PQ.put a (PQ.puts es))) ∧
  (∀ p i j, PQ.entry_leb (p, i) (p, j) = String.leb i j).
Proof.
  repeat split.
  - intros uid info now s. unfold add_task, with_lock.
    destruct (lock s); [done|]. unfold_M.
    destruct (status_counts s !! "pending"); simpl; done.
  - apply puts_Sorted.
  - apply puts_Permutation.
  - intros es. pose proof (puts_Sorted es) as Hs.
    pose proof (puts_Permutation es) as Hp.
    destruct (PQ.puts es) as [|e q]; simpl.
    + symmetry in Hp. by apply Permutation_nil_r in Hp.
    + by apply Sorted_head_least.
  - intros a b es. apply put_comm, puts_Sorted.
  - apply entry_leb_same_priority.
Qed.

(** C5, as stated, fails: "b" and "a" have the same priority and "b" was
    submitted first, yet the tuple of "a" is the one [get] takes first, and
    [get_next_batch] does not return ["b"; "a"]. *)
Lemma equal_priority_not_in_submission_order :
  (priority <$> tasks two_equal !! "b") = Some 1 ∧
  (priority <$> tasks two_equal !! "a") = Some 1 ∧
  (created_at <$> tasks two_equal !! "b") = Some 0 ∧
  (created_at <$> tasks two_equal !! "a") = Some 1 ∧
  PQ.get (task_queue two_equal) = Some ((-1, "a"), [(-1, "b")]) ∧
  (∀ now s', get_next_batch now two_equal ≠ Ret ["b"; "a"] s').
Proof.
  repeat split; try (vm_compute; reflexivity).
  intros now s' H.
  pose proof (get_next_batch_returns now two_equal eq_refl) as Hr.
  rewrite H in Hr. by destruct Hr as [? _].
Qed.

(** C10.  In a call of [get_next_batch] no id is appended to the batch
    twice.  The loop keeps the invariant that the batch has no duplicates
    and that its ids are all in [seen_tasks], from any locals satisfying it
    and in any state; so the batch built by a call has no duplicates,
    whether the call returns it or is left waiting with it: an id taken off
    the queue a second time in the same call is found in [seen_tasks] and
    skipped. *)
Theorem get_next_batch_no_duplicates (now : Z) (s : TaskManager) :
  (∀ n l, scan_ok l →
     match next_batch_loop now n l s with
     | Finished l' _ | Hung l' _ => scan_ok l'
     end) ∧
  match next_batch_scan now s with
  | Finished l _ | Hung l _ => NoDup (batch l)
  end ∧
  match get_next_batch now s with
  | Ret b _ => NoDup b
  | _ => True
  end.
Proof.
  assert (scan_ok scan0) as H0.
  { split; simpl; [apply NoDup_nil_2|]. intros id Hid. by apply elem_of_nil in Hid. }
  split; [|split].
  - intros n l. apply next_batch_loop_scan_ok.
  - unfold next_batch_scan.
    pose proof (next_batch_loop_scan_ok now (Z.to_nat (scan_bound s)) scan0 s H0) as H.
    destruct (next_batch_loop _ _ _ _); by destruct H.
  - unfold get_next_batch, with_lock. destruct (lock s); [done|].
    unfold next_batch_scan.
    pose proof (next_batch_loop_scan_ok now
                  (Z.to_nat (scan_bound (set_lock true s))) scan0
                  (set_lock true s) H0) as H.
    destruct (next_batch_loop _ _ _ _); [by destruct H|done].
Qed.

(* The loop run outside the lock on two pending tasks, starting with "x"
   already in the batch: three distinct ids at the end. *)
Lemma get_next_batch_no_duplicates_witness :
  match next_batch_loop 2 3 (mkScan ["x"] {["x"]} []) two_equal with
  | Finished l _ | Hung l _ => scan_ok l ∧ batch l = ["x"; "a"; "b"]
  end.
Proof.
  assert (scan_ok (mkScan ["x"] {["x"]} [])) as Hx.
  { split; simpl; [apply NoDup_singleton|].
    intros id Hid. apply list_elem_of_singleton in Hid. subst id.
    by apply elem_of_singleton. }
  pose proof (proj1 (get_next_batch_no_duplicates 2 two_equal) 3%nat _ Hx) as H.
  destruct (next_batch_loop 2 3 (mkScan ["x"] {["x"]} []) two_equal) as [l s'|l s']
    eqn:Hrun; (split; [exact H|]); vm_compute in Hrun;
    [injection Hrun as <- _|discriminate Hrun]; reflexivity.
Defined.

(** C6 (amended).  A call of [get_next_batch] takes at most
    [min(qsize, 2 * batch_size)] tuples off the queue.  While the batch is
    not full, the tuple taken in a round is dropped when its id was already
    taken in this call or has no task object any more, and is put back on
    the queue under its key when its task exists with a status other than
    [pending]; in all three cases the batch stays as it is.  When no tuple
    on the queue names a pending task the call returns the empty batch,
    raises nothing, changes no task and no counter, and adds no tuple to the
    queue. *)
Theorem get_next_batch_stale_entries (now : Z) (s : TaskManager) :
  lock s = false →
  match next_batch_scan now (set_lock true s) with
  | Finished l _ | Hung l _ =>
      (length (popped l) ≤
         Z.to_nat (Z.min (PQ.qsize (task_queue s)) (batch_size s * 2)))%nat
  end ∧
  (∀ l s1 np id q,
     Z.of_nat (length (batch l)) < batch_size s1 →
     task_queue s1 = (np, id) :: q →
     (id ∈ seen_tasks l →
        next_batch_iter now l s1 =
          Continue (mkScan (batch l) (seen_tasks l) (popped l ++ [(np, id)]))
                   (set_task_queue q s1)) ∧
     (id ∉ seen_tasks l → tasks s1 !! id = None →
        next_batch_iter now l s1 =
          Continue (mkScan (batch l) ({[id]} ∪ seen_tasks l) (popped l ++ [(np, id)]))
                   (set_task_queue q s1)) ∧
     (id ∉ seen_tasks l →
      ∀ task, tasks s1 !! id = Some task → status task ≠ "pending" →
        next_batch_iter now l s1 =
          Continue (mkScan (batch l) ({[id]} ∪ seen_tasks l) (popped l ++ [(np, id)]))
                   (set_task_queue (PQ.put (np, id) q) s1))) ∧
  (stale_queue s →
   ∃ s', get_next_batch now s = Ret [] s' ∧
         tasks s' = tasks s ∧ status_counts s' = status_counts s ∧
         lock s' = false ∧ batch_size s' = batch_size s ∧
         (∀ e, e ∈ task_queue s' → e ∈ task_queue s)).
Proof.
  intros Hl. split; [|split].
  - unfold next_batch_scan.
    pose proof (next_batch_loop_popped now (Z.to_nat (scan_bound (set_lock true s)))
                  scan0 (set_lock true s)) as H.
    unfold scan_bound in *. simpl in *.
    destruct (next_batch_loop _ _ _ _); lia.
  - intros l s1 np id q Hb Hq. split; [|split].
    + by apply next_batch_iter_seen.
    + by apply next_batch_iter_missing.
    + intros Hseen task. by apply next_batch_iter_not_pending.
  - by apply get_next_batch_stale.
Qed.

Lemma get_next_batch_stale_entries_witness :
  ∃ s', get_next_batch 5 one_processing = Ret [] s' ∧
        tasks s' = tasks one_processing ∧
        status_counts s' = status_counts one_processing.
Proof.
  destruct (proj2 (proj2 (get_next_batch_stale_entries 5 one_processing eq_refl)))
    as (s' & Hrun & Ht & Hc & _).
  - intros e task He. vm_compute in He.
    apply list_elem_of_singleton in He. subst e. vm_compute.
    intros [= <-]. discriminate.
  - exists s'. by repeat split.
Defined.

(** C6, as stated, fails: the only tuple on the queue names "t1", whose
    status is [processing]; the call takes it off the queue, and when the
    call has returned the tuple is on the queue again. *)
Lemma stale_entry_not_discarded :
  get_task_status "t1" one_processing = Some "processing" ∧
  task_queue one_processing = [(-1, "t1")] ∧
  next_batch_scan 5 (set_lock true one_processing) =
    Finished (mkScan [] {["t1"]} [(-1, "t1")]) (set_lock true one_processing) ∧
  get_next_batch 5 one_processing = Ret [] one_processing ∧
  (-1, "t1") ∈ task_queue one_processing.
Proof.
  split; [vm_compute; reflexivity|].
  split; [vm_compute; reflexivity|].
  split; [vm_compute; reflexivity|].
  split; [vm_compute; reflexivity|].
  apply list_elem_of_here.
Qed.

(* Two tuples of the same processing task: the first is put back, the
   second time the id is found in [seen_tasks] and the tuple is dropped. *)
Example duplicate_entry_skipped :
  task_queue one_queued_twice = [(-1, "t1"); (-1, "t1")] ∧
  next_batch_scan 5 (set_lock true one_queued_twice) =
    Finished (mkScan [] {["t1"]} [(-1, "t1"); (-1, "t1")])
             (set_task_queue [(-1, "t1")] (set_lock true one_queued_twice)) ∧
  get_next_batch 5 one_queued_twice =
    Ret [] (set_task_queue [(-1, "t1")] one_queued_twice).
Proof.
  split; [vm_compute; reflexivity|].
  split; vm_compute; reflexivity.
Qed.

(** C9.  With tasks of priority 1, 10 and 5 submitted in that order the
    queue holds the three tuples by descending priority, but the call of
    [get_next_batch] never comes back: it takes the tuple of the
    priority-10 task, appends its id to the batch and then waits for the
    lock it already holds. *)
Theorem get_next_batch_three_priorities :
  task_queue three_priorities = [(-10, "high"); (-5, "normal"); (-1, "low")] ∧
  next_batch_scan 3 (set_lock true three_priorities) =
    Hung (mkScan ["high"] {["high"]} [(-10, "high")])
         (set_task_queue [(-5, "normal"); (-1, "low")] (set_lock true three_priorities)) ∧
  (∀ now,
     get_next_batch now three_priorities =
       Blocked (set_task_queue [(-5, "normal"); (-1, "low")]
                  (set_lock true three_priorities))).
Proof.
  repeat split; try (vm_compute; reflexivity).
Qed.

(** ** Keys of the counters *)

Lemma counter_is_Some (s : TaskManager) (k : string) :
  well_formed s → k ∈ statuses → is_Some (status_counts s !! k).
Proof.
  intros (_ & Hdom & _) Hk. apply elem_of_dom. rewrite Hdom.
  by apply elem_of_list_to_set.
Qed.

Lemma counter_is_None (s : TaskManager) (k : string) :
  well_formed s → k ∉ statuses → status_counts s !! k = None.
Proof.
  intros (_ & Hdom & _) Hk. apply not_elem_of_dom. rewrite Hdom.
  by rewrite elem_of_list_to_set.
Qed.

(** ** Failure, then retry *)

(* [update_task_error] then [retry_failed_task] on a processing task: the
   task is pending again with one more retry and no error, and its tuple is
   on the queue. *)
Lemma error_then_retry (id message : string) (now1 now2 : Z) (s : TaskManager)
    (task : Task) :
  well_formed s →
  tasks s !! id = Some task →
  status task = "processing" →
  ∃ s1 s2 task',
    update_task_error id message now1 s = Ret true s1 ∧
    retry_failed_task id now2 s1 = Ret true s2 ∧
    tasks s2 !! id = Some task' ∧
    status task' = "pending" ∧
    retry_count task' = retry_count task + 1 ∧
    error task' = None ∧
    priority task' = priority task ∧
    (- priority task, id) ∈ task_queue s2 ∧
    lock s2 = false.
Proof.
  intros Hwf Hid Hst. pose proof Hwf as (Hl & _).
  destruct (counter_is_Some s "processing" Hwf) as [a Ha]; [in_statuses|].
  destruct (counter_is_Some s "failed" Hwf) as [b Hb]; [in_statuses|].
  destruct (counter_is_Some s "pending" Hwf) as [c Hc]; [in_statuses|].
  eexists _, _, _. split; [by apply (update_task_error_ok _ _ _ _ task a b)|].
  split.
  - apply (retry_failed_task_ok _ _ _
             (set_updated_at now1 (set_status "failed" (set_error (Some message) task)))
             (b + 1) c); simpl; try done.
    + apply lookup_insert_eq.
    + apply lookup_insert_eq.
    + rewrite !lookup_insert_ne by done. done.
  - simpl. rewrite lookup_insert_eq. repeat split; try done.
    apply elem_of_put. by left.
Qed.

(** C8.  On the manager whose task "t1" is [processing],
    [update_task_error] followed by [retry_failed_task] leaves "t1"
    [pending] with [retry_count] 1 and no error, and its tuple is on the
    queue; but the next [get_next_batch] takes that tuple, appends "t1" to
    the batch and then waits for ever for the lock it holds, so the id is
    never returned. *)
Theorem retried_task_is_not_returned :
  get_task_status "t1" one_processing = Some "processing" ∧
  get_task_status "t1" one_retried = Some "pending" ∧
  get_task_retry_count "t1" one_retried = 1 ∧
  get_task_error "t1" one_retried = None ∧
  (-1, "t1") ∈ task_queue one_retried ∧
  next_batch_scan 4 (set_lock true one_retried) =
    Hung (mkScan ["t1"] {["t1"]} [(-1, "t1")])
         (set_task_queue [(-1, "t1")] (set_lock true one_retried)) ∧
  (∀ now,
     get_next_batch now one_retried =
       Blocked (set_task_queue [(-1, "t1")] (set_lock true one_retried))).
Proof.
  split; [vm_compute; reflexivity|].
  split; [vm_compute; reflexivity|].
  split; [vm_compute; reflexivity|].
  split; [vm_compute; reflexivity|].
  split; [apply list_elem_of_here|].
  split; [vm_compute; reflexivity|].
  intros now. vm_compute. reflexivity.
Qed.

(** ** Every reachable state is well formed *)

Lemma well_formed_init (b : Z) : well_formed (init b).
Proof.
  split; [done|]. split.
  - simpl. rewrite !dom_insert_L, dom_empty_L. unfold statuses. simpl.
    set_solver.
  - intros id task. simpl. by rewrite lookup_empty.
Qed.

Lemma well_formed_update (s s' : TaskManager) :
  well_formed s →
  dom (status_counts s') = dom (status_counts s) →
  (∀ id task, tasks s' !! id = Some task → status task ∈ statuses) →
  lock s' = false →
  well_formed s'.
Proof.
  intros (_ & Hdom & _) Hd Hm Hl. split; [done|]. split; [|done].
  by rewrite Hd.
Qed.

Lemma well_formed_same (s s' : TaskManager) :
  well_formed s →
  tasks s' = tasks s → status_counts s' = status_counts s → lock s' = false →
  well_formed s'.
Proof.
  intros (_ & Hdom & Hst) Ht Hc Hl. split; [done|]. rewrite Ht, Hc. done.
Qed.

Lemma statuses_insert (m : gmap string Task) (id : string) (task : Task) :
  (∀ i t, m !! i = Some t → status t ∈ statuses) →
  status task ∈ statuses →
  ∀ i t, <[id := task]> m !! i = Some t → status t ∈ statuses.
Proof.
  intros Hm Ht i t. rewrite lookup_insert_Some. intros [[_ <-]|[_ Hi]]; [done|].
  by apply (Hm i).
Qed.

Lemma exec_well_formed (c : call) (now : Z) (s s' : TaskManager) :
  well_formed s → exec c now s = Some s' → well_formed s'.
Proof.
  intros Hwf Hex. pose proof Hwf as (Hl & Hdom & Hst).
  destruct (counter_is_Some s "pending" Hwf) as [np Hnp]; [in_statuses|].
  destruct (counter_is_Some s "processing" Hwf) as [nr Hnr]; [in_statuses|].
  destruct (counter_is_Some s "completed" Hwf) as [nc Hnc]; [in_statuses|].
  destruct (counter_is_Some s "failed" Hwf) as [nf Hnf]; [in_statuses|].
  destruct c as [uid info|id st| |id|id v|id msg|].
  - (* add_task *)
    exec_by (add_task_ok uid info now s np Hl Hnp) Hex.
    apply (well_formed_update s); simpl; [done| | |done].
    + by apply dom_insert_lookup_L.
    + apply statuses_insert; [done|simpl; in_statuses].
  - (* update_task_status *)
    destruct (tasks s !! id) as [task|] eqn:Hid.
    + destruct (counter_is_Some s (status task) Hwf) as [a Ha]; [by eapply Hst|].
      destruct (<[status task := a - 1]> (status_counts s) !! st) as [b|] eqn:Hb.
      * exec_by (update_task_status_ok id st now s task a b Hl Hid Ha Hb) Hex.
        apply (well_formed_update s); simpl; [done| | |done].
        -- rewrite dom_insert_lookup_L by done. by apply dom_insert_lookup_L.
        -- apply statuses_insert; [done|]. simpl.
           assert (st ∈ dom (<[status task := a - 1]> (status_counts s))) as Hin
             by (by apply elem_of_dom).
           rewrite dom_insert_lookup_L, Hdom in Hin by done.
           by apply elem_of_list_to_set in Hin.
      * exec_by (update_task_status_unknown id st now s task a Hl Hid Ha Hb) Hex.
        apply (well_formed_update s); simpl; [done| |done|done].
        by apply dom_insert_lookup_L.
    + by exec_by (update_task_status_not_found id st now s Hl Hid) Hex.
  - (* get_next_batch *)
    unfold exec, perform in Hex.
    pose proof (get_next_batch_returns now s Hl) as Hr.
    destruct (get_next_batch now s) as [b s0| |]; simpl in Hex; try done.
    injection Hex as <-. destruct Hr as (_ & Ht & Hc & Hl0 & _).
    by apply (well_formed_same s).
  - (* retry_failed_task *)
    destruct (tasks s !! id) as [task|] eqn:Hid.
    + destruct (decide (status task = "failed")) as [Hf|Hf].
      * exec_by (retry_failed_task_ok id now s task nf np Hl Hid Hf Hnf Hnp) Hex.
        apply (well_formed_update s); simpl; [done| | |done].
        -- rewrite dom_insert_lookup_L by (by rewrite lookup_insert_ne).
           by apply dom_insert_lookup_L.
        -- apply statuses_insert; [done|simpl; in_statuses].
      * by exec_by (retry_failed_task_not_failed id now s task Hl Hid Hf) Hex.
    + by exec_by (retry_failed_task_not_found id now s Hl Hid) Hex.
  - (* update_task_progress *)
    destruct (tasks s !! id) as [task|] eqn:Hid.
    + exec_by (update_task_progress_ok id v now s task Hl Hid) Hex.
      apply (well_formed_update s); simpl; [done|done| |done].
      apply statuses_insert; [done|]. simpl. by eapply Hst.
    + by exec_by (update_task_progress_not_found id v now s Hl Hid) Hex.
  - (* update_task_error *)
    destruct (tasks s !! id) as [task|] eqn:Hid.
    + exec_by (update_task_error_ok id msg now s task nr nf Hl Hid Hnr Hnf) Hex.
      apply (well_formed_update s); simpl; [done| | |done].
      * rewrite dom_insert_lookup_L by (by rewrite lookup_insert_ne).
        by apply dom_insert_lookup_L.
      * apply statuses_insert; [done|simpl; in_statuses].
    + by exec_by (update_task_error_not_found id msg now s Hl Hid) Hex.
  - (* cleanup_completed_tasks *)
    exec_by (cleanup_completed_tasks_ok s nc Hl Hnc) Hex.
    apply (well_formed_update s); simpl; [done| | |done].
    + by apply dom_insert_lookup_L.
    + intros i t Hi. apply lookup_after_deletes in Hi. by eapply Hst.
Qed.

Lemma reachable_by_well_formed (allowed : call → TaskManager → Prop) (b : Z)
    (s : TaskManager) :
  reachable_by allowed b s → well_formed s.
Proof.
  induction 1 as [|s c now s' _ IH _ _ Hex]; [apply well_formed_init|].
  by eapply exec_well_formed.
Qed.

(** ** Calls that raise *)


(** C2.  [update_task_status] with a status that is not a key of
    [status_counts] raises [KeyError] after it has already taken one from
    the counter of the current status: the call fails and the [pending]
    counter has gone from 1 to 0 while the task is still pending. *)
Theorem update_task_status_unknown_status_mutates :
  update_task_status "t1" "cancelled" 1 one_pending =
    Raise (KeyError "cancelled") one_cancelled ∧
  status_counts one_pending !! "pending" = Some 1 ∧
  status_counts one_cancelled !! "pending" = Some 0 ∧
  get_task_status "t1" one_cancelled = Some "pending" ∧
  one_cancelled ≠ one_pending.
Proof.
  split; [vm_compute; reflexivity|].
  split; [vm_compute; reflexivity|].
  split; [vm_compute; reflexivity|].
  split; [vm_compute; reflexivity|].
  intros H. apply (f_equal (λ s, status_counts s !! "pending")) in H.
  vm_compute in H. discriminate H.
Qed.

(** ** The sum of the counters *)

(* Moving one unit between two of the four counters keeps the sum. *)
Lemma total_of_move (d : gmap string Z) (old new : string) (a b : Z) :
  old ∈ statuses → new ∈ statuses →
  d !! old = Some a →
  <[old := a - 1]> d !! new = Some b →
  total_of (<[new := b + 1]> (<[old := a - 1]> d)) = total_of d.
Proof.
  unfold statuses. rewrite !elem_of_cons, !elem_of_nil.
  intros Ho Hn Ha Hb. unfold total_of.
  destruct Ho as [->|[->|[->|[->|[]]]]], Hn as [->|[->|[->|[->|[]]]]];
    simplify_map_eq;
    destruct (d !! "pending"), (d !! "processing"), (d !! "completed"),
      (d !! "failed"); simplify_eq/=; try done; f_equal; lia.
Qed.

(* Adding [n] to one of the four counters adds [n] to the sum. *)
Lemma total_of_add (d : gmap string Z) (k : string) (a n t : Z) :
  k ∈ statuses →
  d !! k = Some a →
  total_of d = Some t →
  total_of (<[k := a + n]> d) = Some (t + n).
Proof.
  unfold statuses. rewrite !elem_of_cons, !elem_of_nil.
  intros Hk Ha. unfold total_of.
  destruct Hk as [->|[->|[->|[->|[]]]]]; simplify_map_eq;
    destruct (d !! "pending"), (d !! "processing"), (d !! "completed"),
      (d !! "failed"); simplify_eq/=; try done; intros [= <-]; f_equal; lia.
Qed.

Lemma live_tasks_insert_Some (s : TaskManager) (id : string) (task task' : Task) :
  tasks s !! id = Some task →
  Z.of_nat (size (<[id := task']> (tasks s))) = live_tasks s.
Proof. intros Hid. unfold live_tasks. by rewrite map_size_insert_Some. Qed.

(* One call with a known status keeps the sum of the counters equal to the
   number of live tasks. *)
Lemma exec_stats_total (c : call) (now : Z) (s s' : TaskManager) :
  well_formed s → known_status c → fresh_uid c s →
  stats_total s = Some (live_tasks s) →
  exec c now s = Some s' →
  stats_total s' = Some (live_tasks s').
Proof.
  intros Hwf Hknown Hfresh Hsum Hex. pose proof Hwf as (Hl & Hdom & Hst).
  destruct (counter_is_Some s "pending" Hwf) as [np Hnp]; [in_statuses|].
  destruct (counter_is_Some s "processing" Hwf) as [nr Hnr]; [in_statuses|].
  destruct (counter_is_Some s "completed" Hwf) as [nc Hnc]; [in_statuses|].
  destruct (counter_is_Some s "failed" Hwf) as [nf Hnf]; [in_statuses|].
  unfold stats_total, get_task_stats in *.
  destruct c as [uid info|id st| |id|id v|id msg|]; simpl in Hknown, Hfresh.
  - exec_by (add_task_ok uid info now s np Hl Hnp) Hex. simpl.
    rewrite (total_of_add _ "pending" np 1 (live_tasks s)); [|in_statuses|done..].
    unfold live_tasks; simpl. rewrite map_size_insert_None by done.
    f_equal. lia.
  - destruct (tasks s !! id) as [task|] eqn:Hid.
    + destruct (counter_is_Some s (status task) Hwf) as [a Ha]; [by eapply Hst|].
      assert (is_Some (<[status task := a - 1]> (status_counts s) !! st)) as [b Hb].
      { apply elem_of_dom. rewrite dom_insert_lookup_L, Hdom by done.
        by apply elem_of_list_to_set. }
      exec_by (update_task_status_ok id st now s task a b Hl Hid Ha Hb) Hex. simpl.
      rewrite total_of_move; [|by eapply Hst|done..].
      unfold live_tasks at 1; simpl. by erewrite live_tasks_insert_Some.
    + by exec_by (update_task_status_not_found id st now s Hl Hid) Hex.
  - unfold exec, perform in Hex.
    pose proof (get_next_batch_returns now s Hl) as Hr.
    destruct (get_next_batch now s) as [b s0| |]; simpl in Hex; try done.
    injection Hex as <-. destruct Hr as (_ & Ht & Hc & _).
    unfold live_tasks. by rewrite Hc, Ht.
  - destruct (tasks s !! id) as [task|] eqn:Hid.
    + destruct (decide (status task = "failed")) as [Hf|Hf].
      * exec_by (retry_failed_task_ok id now s task nf np Hl Hid Hf Hnf Hnp) Hex.
        simpl. rewrite total_of_move; [|in_statuses|in_statuses|done|].
        -- unfold live_tasks at 1; simpl. by erewrite live_tasks_insert_Some.
        -- by rewrite lookup_insert_ne.
      * by exec_by (retry_failed_task_not_failed id now s task Hl Hid Hf) Hex.
    + by exec_by (retry_failed_task_not_found id now s Hl Hid) Hex.
  - destruct (tasks s !! id) as [task|] eqn:Hid.
    + exec_by (update_task_progress_ok id v now s task Hl Hid) Hex. simpl.
      unfold live_tasks at 1; simpl. by erewrite live_tasks_insert_Some.
    + by exec_by (update_task_progress_not_found id v now s Hl Hid) Hex.
  - destruct (tasks s !! id) as [task|] eqn:Hid.
    + exec_by (update_task_error_ok id msg now s task nr nf Hl Hid Hnr Hnf) Hex.
      simpl. rewrite total_of_move; [|in_statuses|in_statuses|done|].
      * unfold live_tasks at 1; simpl. by erewrite live_tasks_insert_Some.
      * by rewrite lookup_insert_ne.
    + by exec_by (update_task_error_not_found id msg now s Hl Hid) Hex.
  - exec_by (cleanup_completed_tasks_ok s nc Hl Hnc) Hex. simpl.
    replace (nc - count_status "completed" s)
      with (nc + - count_status "completed" s) by lia.
    rewrite (total_of_add _ "completed" nc _ (live_tasks s)); [|in_statuses|done..].
    f_equal. unfold live_tasks; simpl.
    pose proof (size_after_deletes (completed_tasks s) (tasks s)
                  (completed_tasks_NoDup s)) as Hsize.
    rewrite <- completed_tasks_length.
    assert (∀ id, id ∈ completed_tasks s → is_Some (tasks s !! id)) as Hin.
    { intros id Hid. apply completed_tasks_spec in Hid as (task & Hid & _).
      by exists task. }
    specialize (Hsize Hin). lia.
Qed.

(* The sum of the four counters is the number of live tasks in every state
   reached by calls whose requested status is one of the four. *)
Lemma stats_total_known_statuses (b : Z) (s : TaskManager) :
  reachable_by (λ c _, known_status c) b s →
  stats_total s = Some (live_tasks s).
Proof.
  induction 1 as [|s c now s' Hreach IH Hfresh Hknown Hex]; [done|].
  apply (exec_stats_total c now s); try done.
  by eapply reachable_by_well_formed.
Qed.

(** C7.  After [add_task] and then [update_task_status] with a status that
    is not a key of [status_counts], a state reached by public calls only,
    the four counters add up to 0 while one task is live. *)
Theorem stats_total_after_unknown_status :
  reachable 10 one_cancelled ∧
  stats_total one_cancelled = Some 0 ∧
  live_tasks one_cancelled = 1.
Proof.
  split; [|split; vm_compute; reflexivity].
  apply (reach_call _ _ one_pending (UpdateTaskStatus "t1" "cancelled") 1);
    [|exact I|exact I|vm_compute; reflexivity].
  apply (reach_call _ _ (init 10) (AddTask "t1" ∅) 0);
    [|vm_compute; reflexivity|exact I|vm_compute; reflexivity].
  apply reach_init.
Qed.

(** ** The counter of each status *)

(* What one task adds to the count of status [st]. *)
Lemma count_in_insert_None (st : string) (m : gmap string Task) (id : string)
    (task : Task) :
  m !! id = None →
  count_in st (<[id := task]> m) =
    count_in st m + (if decide (status task = st) then 1 else 0).
Proof.
  intros Hid. unfold count_in. rewrite map_to_list_insert by done.
  rewrite filter_cons. simpl. destruct (decide (status task = st)); simpl; lia.
Qed.

Lemma count_in_delete (st : string) (m : gmap string Task) (id : string)
    (task : Task) :
  m !! id = Some task →
  count_in st (delete id m) =
    count_in st m - (if decide (status task = st) then 1 else 0).
Proof.
  intros Hid. unfold count_in. rewrite <- (map_to_list_delete m id task) by done.
  rewrite filter_cons. simpl. destruct (decide (status task = st)); simpl; lia.
Qed.

Lemma count_in_insert_Some (st : string) (m : gmap string Task) (id : string)
    (task task' : Task) :
  m !! id = Some task →
  count_in st (<[id := task']> m) =
    count_in st m - (if decide (status task = st) then 1 else 0)
                  + (if decide (status task' = st) then 1 else 0).
Proof.
  intros Hid. rewrite <- insert_delete_eq.
  rewrite count_in_insert_None by apply lookup_delete_eq.
  by rewrite (count_in_delete st m id task).
Qed.

Lemma count_in_after_deletes (st : string) (ids : list string)
    (m : gmap string Task) :
  NoDup ids →
  (∀ id, id ∈ ids → ∃ task, m !! id = Some task ∧ status task = "completed") →
  count_in st (foldl (λ m id, delete id m) m ids) =
    count_in st m -
      (if decide (st = "completed") then Z.of_nat (length ids) else 0).
Proof.
  revert m. induction ids as [|id ids IH]; intros m Hnd Hin; simpl.
  - destruct (decide (st = "completed")); lia.
  - apply NoDup_cons in Hnd as [Hni Hnd].
    destruct (Hin id) as (task & Hid & Hst); [apply list_elem_of_here|].
    rewrite IH; [|done|].
    + rewrite (count_in_delete st m id task) by done. rewrite Hst.
      destruct (decide (st = "completed")) as [->|Hne].
      * rewrite decide_True by done. lia.
      * rewrite decide_False by done. lia.
    + intros id' Hid'. rewrite lookup_delete_ne by (intros ->; done).
      apply Hin. by apply list_elem_of_further.
Qed.

(* A task goes from one status to another and the two counters follow. *)
Lemma counters_move (d : gmap string Z) (m : gmap string Task) (id : string)
    (task task' : Task) (a b : Z) :
  (∀ k, k ∈ statuses → d !! k = Some (count_in k m)) →
  m !! id = Some task →
  status task ∈ statuses →
  d !! status task = Some a →
  <[status task := a - 1]> d !! status task' = Some b →
  ∀ k, k ∈ statuses →
    <[status task' := b + 1]> (<[status task := a - 1]> d) !! k
      = Some (count_in k (<[id := task']> m)).
Proof.
  intros Hd Hid Hold Ha Hb k Hk.
  rewrite (count_in_insert_Some k m id task task') by done.
  assert (a = count_in (status task) m) as Ha' by (rewrite (Hd _ Hold) in Ha; congruence).
  destruct (decide (status task' = k)) as [<-|Hnew].
  - rewrite lookup_insert_eq. f_equal.
    destruct (decide (status task = status task')) as [Heq|Hne].
    + rewrite Heq in Hb, Ha'. rewrite lookup_insert_eq in Hb. simplify_eq. lia.
    + rewrite lookup_insert_ne in Hb by done. rewrite (Hd _ Hk) in Hb.
      simplify_eq. lia.
  - rewrite lookup_insert_ne by done.
    destruct (decide (status task = k)) as [<-|Hne].
    + rewrite lookup_insert_eq. f_equal. lia.
    + rewrite lookup_insert_ne by done. rewrite (Hd _ Hk). f_equal. lia.
Qed.

(* One call keeps every counter exact, provided the requested status is
   known and [update_task_error] is called on a processing task. *)
Lemma exec_counters_exact (c : call) (now : Z) (s s' : TaskManager) :
  well_formed s → known_status c → error_on_processing c s → fresh_uid c s →
  counters_exact s →
  exec c now s = Some s' →
  counters_exact s'.
Proof.
  intros Hwf Hknown Herr Hfresh Hexact Hex. pose proof Hwf as (Hl & Hdom & Hst).
  destruct (counter_is_Some s "pending" Hwf) as [np Hnp]; [in_statuses|].
  destruct (counter_is_Some s "processing" Hwf) as [nr Hnr]; [in_statuses|].
  destruct (counter_is_Some s "completed" Hwf) as [nc Hnc]; [in_statuses|].
  destruct (counter_is_Some s "failed" Hwf) as [nf Hnf]; [in_statuses|].
  unfold counters_exact, count_status in *.
  destruct c as [uid info|id st| |id|id v|id msg|]; simpl in Hknown, Herr, Hfresh.
  - exec_by (add_task_ok uid info now s np Hl Hnp) Hex. simpl. intros k Hk.
    rewrite count_in_insert_None by done. simpl.
    destruct (decide ("pending" = k)) as [<-|Hne].
    + rewrite lookup_insert_eq. rewrite (Hexact "pending") in Hnp by in_statuses.
      f_equal. congruence.
    + rewrite lookup_insert_ne by done. rewrite (Hexact k Hk). f_equal. lia.
  - destruct (tasks s !! id) as [task|] eqn:Hid.
    + destruct (counter_is_Some s (status task) Hwf) as [a Ha]; [by eapply Hst|].
      assert (is_Some (<[status task := a - 1]> (status_counts s) !! st)) as [b Hb].
      { apply elem_of_dom. rewrite dom_insert_lookup_L, Hdom by done.
        by apply elem_of_list_to_set. }
      exec_by (update_task_status_ok id st now s task a b Hl Hid Ha Hb) Hex. simpl.
      apply (counters_move _ _ id task (set_updated_at now (set_status st task)) a b);
        try done. by eapply Hst.
    + by exec_by (update_task_status_not_found id st now s Hl Hid) Hex.
  - unfold exec, perform in Hex.
    pose proof (get_next_batch_returns now s Hl) as Hr.
    destruct (get_next_batch now s) as [b s0| |]; simpl in Hex; try done.
    injection Hex as <-. destruct Hr as (_ & Ht & Hc & _).
    by rewrite Hc, Ht.
  - destruct (tasks s !! id) as [task|] eqn:Hid.
    + destruct (decide (status task = "failed")) as [Hf|Hf].
      * exec_by (retry_failed_task_ok id now s task nf np Hl Hid Hf Hnf Hnp) Hex.
        simpl.
        pose proof (counters_move (status_counts s) (tasks s) id task
          (set_updated_at now (set_error None
             (set_retry_count (retry_count task + 1) (set_status "pending" task))))
          nf np Hexact Hid) as Hmove.
        simpl in Hmove. rewrite Hf in Hmove. apply Hmove; [in_statuses|done|].
        by rewrite lookup_insert_ne.
      * by exec_by (retry_failed_task_not_failed id now s task Hl Hid Hf) Hex.
    + by exec_by (retry_failed_task_not_found id now s Hl Hid) Hex.
  - destruct (tasks s !! id) as [task|] eqn:Hid.
    + exec_by (update_task_progress_ok id v now s task Hl Hid) Hex. simpl.
      intros k Hk. rewrite (count_in_insert_Some k _ id task) by done. simpl.
      rewrite (Hexact k Hk). f_equal. lia.
    + by exec_by (update_task_progress_not_found id v now s Hl Hid) Hex.
  - destruct (tasks s !! id) as [task|] eqn:Hid.
    + exec_by (update_task_error_ok id msg now s task nr nf Hl Hid Hnr Hnf) Hex.
      simpl. specialize (Herr task eq_refl).
      pose proof (counters_move (status_counts s) (tasks s) id task
        (set_updated_at now (set_status "failed" (set_error (Some msg) task)))
        nr nf Hexact Hid) as Hmove.
      simpl in Hmove. rewrite Herr in Hmove. apply Hmove; [in_statuses|done|].
      by rewrite lookup_insert_ne.
    + by exec_by (update_task_error_not_found id msg now s Hl Hid) Hex.
  - exec_by (cleanup_completed_tasks_ok s nc Hl Hnc) Hex. simpl. intros k Hk.
    rewrite count_in_after_deletes; [|apply completed_tasks_NoDup|].
    + destruct (decide (k = "completed")) as [->|Hne].
      * rewrite lookup_insert_eq. rewrite completed_tasks_length.
        rewrite (Hexact "completed") in Hnc by in_statuses.
        unfold count_status. f_equal. congruence.
      * rewrite lookup_insert_ne by done. rewrite (Hexact k Hk). f_equal. lia.
    + intros id Hid. by apply completed_tasks_spec.
Qed.

(* Every counter is the number of live tasks in its status in every state
   reached by calls whose requested status is one of the four and whose
   [update_task_error] calls are made on processing tasks. *)
Lemma counters_exact_on_checked_calls (b : Z) (s : TaskManager) :
  reachable_by (λ c s, known_status c ∧ error_on_processing c s) b s →
  counters_exact s.
Proof.
  induction 1 as [|s c now s' Hreach IH Hfresh [Hknown Herr] Hex].
  - intros k Hk. unfold statuses in Hk. rewrite !elem_of_cons, elem_of_nil in Hk.
    destruct Hk as [->|[->|[->|[->|[]]]]]; reflexivity.
  - apply (exec_counters_exact c now s); try done.
    by eapply reachable_by_well_formed.
Qed.

(** C4.  After [add_task] and then [update_task_error] on the still
    pending task, a state reached by public calls only, the counters are
    [pending] 1, [processing] -1 and [failed] 1, while the only live task is
    [failed]: no pending and no processing task exists. *)
Theorem counters_after_error_on_pending :
  reachable 10 one_failed_early ∧
  status_counts one_failed_early !! "pending" = Some 1 ∧
  count_status "pending" one_failed_early = 0 ∧
  status_counts one_failed_early !! "processing" = Some (-1) ∧
  count_status "processing" one_failed_early = 0 ∧
  status_counts one_failed_early !! "failed" = Some 1 ∧
  count_status "failed" one_failed_early = 1.
Proof.
  split; [|repeat (split; [vm_compute; reflexivity|]); vm_compute; reflexivity].
  apply (reach_call _ _ one_pending (UpdateTaskError "t1" "boom") 1);
    [|exact I|exact I|vm_compute; reflexivity].
  apply (reach_call _ _ (init 10) (AddTask "t1" ∅) 0);
    [|vm_compute; reflexivity|exact I|vm_compute; reflexivity].
  apply reach_init.
Qed.

(** * Further properties of the task manager *)

(** ** [get_next_batch]: what a call can and cannot do *)

(* Under the held lock a round never adds a tuple to the queue. *)
Lemma next_batch_iter_queue_held (now : Z) (l : scan) (s : TaskManager) :
  lock s = true →
  match next_batch_iter now l s with
  | Continue _ s' | Break _ s' | Stuck _ s' =>
      (length (task_queue s') ≤ length (task_queue s))%nat ∧
      ∀ e, e ∈ task_queue s' → e ∈ task_queue s
  end.
Proof.
  intros Hl. unfold next_batch_iter.
  case_bool_decide; [done|].
  destruct (task_queue s) as [|[np id] q] eqn:Hq; simpl; [by rewrite Hq|].
  assert (∀ e, e ∈ q → e ∈ (np, id) :: q) as Hsub
    by (intros e; apply list_elem_of_further).
  case_bool_decide; simpl; [split; [lia|done]|].
  destruct (tasks s !! id) as [task|]; simpl; [|split; [lia|done]].
  case_bool_decide.
  - rewrite update_task_status_held by done. simpl. split; [lia|done].
  - simpl. rewrite put_length. split; [lia|].
    intros e He. apply elem_of_put in He as [->|He];
      [apply list_elem_of_here|by apply Hsub].
Qed.

Lemma next_batch_loop_queue_held (now : Z) (n : nat) (l : scan) (s : TaskManager) :
  lock s = true →
  match next_batch_loop now n l s with
  | Finished _ s' | Hung _ s' =>
      (length (task_queue s') ≤ length (task_queue s))%nat ∧
      ∀ e, e ∈ task_queue s' → e ∈ task_queue s
  end.
Proof.
  revert l s. induction n as [|n IH]; intros l s Hl; simpl; [done|].
  pose proof (next_batch_iter_queue_held now l s Hl) as Hq.
  pose proof (next_batch_iter_held now l s Hl) as Hrec.
  destruct (next_batch_iter now l s) as [l1 s1|l1 s1|l1 s1]; try done.
  destruct Hrec as [(_ & _ & Hl1 & _) _]. rewrite Hl in Hl1.
  specialize (IH l1 s1 Hl1).
  destruct (next_batch_loop now n l1 s1); destruct IH as [IHlen IHsub], Hq as [Hlen Hsub];
    (split; [lia|]); intros e He; by apply Hsub, IHsub.
Qed.

(** X1.  Called with the lock free, [get_next_batch] never raises; and
    whenever it returns, the batch is empty, no task and no counter has
    changed, the lock is free again, and the queue holds no tuple it did not
    hold before and is no longer than before. *)
Theorem get_next_batch_returns_only_empty (now : Z) (s : TaskManager) :
  lock s = false →
  (∀ e s', get_next_batch now s ≠ Raise e s') ∧
  (∀ b s', get_next_batch now s = Ret b s' →
     b = [] ∧ tasks s' = tasks s ∧ status_counts s' = status_counts s ∧
     lock s' = false ∧ batch_size s' = batch_size s ∧
     (length (task_queue s') ≤ length (task_queue s))%nat ∧
     (∀ e, e ∈ task_queue s' → e ∈ task_queue s)).
Proof.
  intros Hl. pose proof (get_next_batch_returns now s Hl) as Hr. split.
  - intros e s' H. by rewrite H in Hr.
  - intros b s' H. rewrite H in Hr. destruct Hr as (-> & Ht & Hc & Hl' & Hb).
    do 5 (split; [done|]).
    unfold get_next_batch in H. rewrite with_lock_free in H by done.
    unfold next_batch_scan in H.
    pose proof (next_batch_loop_queue_held now
                  (Z.to_nat (scan_bound (set_lock true s))) scan0
                  (set_lock true s) eq_refl) as Hq.
    destruct (next_batch_loop _ _ _ _) as [l1 s1|l1 s1]; [|done].
    injection H as _ <-. exact Hq.
Qed.

Lemma get_next_batch_returns_only_empty_witness :
  get_next_batch 5 one_queued_twice =
    Ret [] (set_task_queue [(-1, "t1")] one_queued_twice) ∧
  (1 ≤ length (task_queue one_queued_twice))%nat.
Proof.
  assert (get_next_batch 5 one_queued_twice =
            Ret [] (set_task_queue [(-1, "t1")] one_queued_twice)) as Hrun
    by (vm_compute; reflexivity).
  split; [exact Hrun|].
  destruct (proj2 (get_next_batch_returns_only_empty 5 one_queued_twice eq_refl)
              _ _ Hrun) as (_ & _ & _ & _ & _ & Hlen & _).
  exact Hlen.
Defined.

(** X2.  When the lock is free, [batch_size] is positive and the least
    tuple of the queue names a pending task, [get_next_batch] never comes
    back: it is left waiting with the lock held, the tuple taken off the
    queue, and every task and counter as before.  From then on every method
    that takes the lock waits for ever as well. *)
Theorem get_next_batch_blocks_on_pending (now : Z) (s : TaskManager)
    (np : Z) (id : string) (q : PQ.t) (task : Task) :
  lock s = false →
  0 < batch_size s →
  task_queue s = (np, id) :: q →
  tasks s !! id = Some task →
  status task = "pending" →
  ∃ s', get_next_batch now s = Blocked s' ∧
        lock s' = true ∧ task_queue s' = q ∧
        tasks s' = tasks s ∧ status_counts s' = status_counts s ∧
        (∀ t, get_next_batch t s' = Blocked s') ∧
        (∀ uid info t, add_task uid info t s' = Blocked s') ∧
        (∀ i st t, update_task_status i st t s' = Blocked s') ∧
        (∀ i v t, update_task_progress i v t s' = Blocked s') ∧
        (∀ i msg t, update_task_error i msg t s' = Blocked s') ∧
        (∀ i t, retry_failed_task i t s' = Blocked s') ∧
        cleanup_completed_tasks s' = Blocked s'.
Proof.
  intros Hl Hb Hq Hid Hst. eexists. split.
  - by apply (get_next_batch_blocks now s np id q task).
  - simpl. do 4 (split; [done|]).
    repeat split; intros; by apply with_lock_held.
Qed.

Lemma get_next_batch_blocks_on_pending_witness :
  ∃ s', get_next_batch 1 one_pending = Blocked s' ∧ lock s' = true ∧
        task_queue s' = [].
Proof.
  destruct (get_next_batch_blocks_on_pending 1 one_pending (-1) "t1" []
              (mkTask "t1" ∅ "pending" 1 0 0 None 0 0)
              eq_refl eq_refl eq_refl eq_refl eq_refl)
    as (s' & Hrun & Hl & Hq & _).
  exists s'. split; [exact Hrun|]. split; [exact Hl|exact Hq].
Defined.

(** X3.  With an empty queue, or with a [batch_size] that is not positive,
    [get_next_batch] returns the empty batch and leaves the manager exactly
    as it was, pending tasks included. *)
Theorem get_next_batch_nothing_to_scan (now : Z) (s : TaskManager) :
  lock s = false →
  task_queue s = [] ∨ batch_size s ≤ 0 →
  get_next_batch now s = Ret [] s.
Proof.
  intros Hl Hcase. unfold get_next_batch. rewrite with_lock_free by done.
  unfold next_batch_scan.
  assert (Z.to_nat (scan_bound (set_lock true s)) = 0%nat) as ->.
  { unfold scan_bound, PQ.qsize. simpl. destruct Hcase as [->|Hb]; simpl; lia. }
  simpl. by rewrite set_lock_release.
Qed.

Lemma get_next_batch_nothing_to_scan_witness :
  get_next_batch 0 (init 10) = Ret [] (init 10) ∧
  get_task_status "t1" zero_batch_pending = Some "pending" ∧
  get_next_batch 1 zero_batch_pending = Ret [] zero_batch_pending.
Proof.
  split; [|split].
  - apply (get_next_batch_nothing_to_scan 0 (init 10) eq_refl). by left.
  - reflexivity.
  - apply (get_next_batch_nothing_to_scan 1 zero_batch_pending eq_refl).
    right. vm_compute. discriminate.
Defined.

(** ** States reached by calls of the public methods *)

(** X4.  In every state reached by calls of the public methods, whatever
    their arguments, the lock is free, the dict returned by
    [get_task_stats] has exactly the four keys [pending], [processing],
    [completed] and [failed], and every status reported by
    [get_task_status] is one of these four: a status that is not a key of
    the counters is never stored in a task. *)
Theorem reachable_states_keep_statuses (b : Z) (s : TaskManager) :
  reachable b s →
  lock s = false ∧
  (∀ k, is_Some (get_task_stats s !! k) ↔ k ∈ statuses) ∧
  (∀ id st, get_task_status id s = Some st → st ∈ statuses).
Proof.
  intros Hreach. apply reachable_by_well_formed in Hreach as (Hl & Hdom & Hst).
  split; [done|]. split.
  - intros k. unfold get_task_stats. rewrite <- elem_of_dom, Hdom.
    apply elem_of_list_to_set.
  - intros id st. unfold get_task_status.
    destruct (tasks s !! id) as [task|] eqn:Hid; simpl; [|done].
    intros [= <-]. by eapply Hst.
Qed.

Lemma reachable_states_keep_statuses_witness :
  lock one_cancelled = false ∧
  (∀ k, is_Some (get_task_stats one_cancelled !! k) ↔ k ∈ statuses) ∧
  (∀ id st, get_task_status id one_cancelled = Some st → st ∈ statuses).
Proof.
  apply (reachable_states_keep_statuses 10).
  apply (reach_call _ _ one_pending (UpdateTaskStatus "t1" "cancelled") 1);
    [|exact I|exact I|vm_compute; reflexivity].
  apply (reach_call _ _ (init 10) (AddTask "t1" ∅) 0);
    [|vm_compute; reflexivity|exact I|vm_compute; reflexivity].
  apply reach_init.
Defined.



(** X6.  In every state reached by calls whose requested status is one of
    the four, the four counters add up to the number of live tasks;
    [update_task_error] on a task in any status is among these calls. *)
Theorem stats_total_is_live_tasks (b : Z) (s : TaskManager) :
  reachable_by (λ c _, known_status c) b s →
  stats_total s = Some (live_tasks s).
Proof.
  induction 1 as [|s c now s' Hreach IH Hfresh Hknown Hex]; [reflexivity|].
  apply (exec_stats_total c now s); try done.
  by eapply reachable_by_well_formed.
Qed.

Lemma stats_total_is_live_tasks_witness :
  stats_total one_failed_early = Some (live_tasks one_failed_early).
Proof.
  apply (stats_total_is_live_tasks 10).
  apply (reach_call _ _ one_pending (UpdateTaskError "t1" "boom") 1);
    [|exact I|exact I|vm_compute; reflexivity].
  apply (reach_call _ _ (init 10) (AddTask "t1" ∅) 0);
    [|vm_compute; reflexivity|exact I|vm_compute; reflexivity].
  apply reach_init.
Defined.

(** X7.  In every state reached by calls whose requested status is one of
    the four and whose [update_task_error] calls are made on processing
    tasks, each of the four counters is the number of live tasks in that
    status. *)
Theorem counters_count_live_tasks (b : Z) (s : TaskManager) :
  reachable_by (λ c s, known_status c ∧ error_on_processing c s) b s →
  ∀ k, k ∈ statuses → get_task_stats s !! k = Some (count_status k s).
Proof.
  induction 1 as [|s c now s' Hreach IH Hfresh [Hknown Herr] Hex].
  - intros k Hk. unfold statuses in Hk. rewrite !elem_of_cons, elem_of_nil in Hk.
    destruct Hk as [->|[->|[->|[->|[]]]]]; reflexivity.
  - apply (exec_counters_exact c now s); try done.
    by eapply reachable_by_well_formed.
Qed.

Lemma counters_count_live_tasks_witness :
  get_task_stats one_completed !! "completed" =
    Some (count_status "completed" one_completed).
Proof.
  apply (counters_count_live_tasks 10); [|in_statuses].
  apply (reach_call _ _ one_processing (UpdateTaskStatus "t1" "completed") 2);
    [|exact I|split; [simpl; in_statuses|exact I]|vm_compute; reflexivity].
  apply (reach_call _ _ one_pending (UpdateTaskStatus "t1" "processing") 1);
    [|exact I|split; [simpl; in_statuses|exact I]|vm_compute; reflexivity].
  apply (reach_call _ _ (init 10) (AddTask "t1" ∅) 0);
    [|vm_compute; reflexivity|split; exact I|vm_compute; reflexivity].
  apply reach_init.
Defined.

(** ** The methods one by one *)

(** X8.  [update_task_progress] on an existing task, in any status, returns
    [True] and stores the value clamped to the range 0..100, which
    [get_task_progress] then returns; a value already in the range is
    stored as it is.  Status, error and retry count of the task, the other
    tasks, the counters and the queue stay as they were. *)
Theorem update_task_progress_clamps (id : string) (v now : Z) (s : TaskManager)
    (task : Task) :
  lock s = false →
  tasks s !! id = Some task →
  ∃ s', update_task_progress id v now s = Ret true s' ∧
        get_task_progress id s' = Z.max 0 (Z.min 100 v) ∧
        0 ≤ get_task_progress id s' ≤ 100 ∧
        (0 ≤ v ≤ 100 → get_task_progress id s' = v) ∧
        get_task_status id s' = Some (status task) ∧
        get_task_error id s' = error task ∧
        get_task_retry_count id s' = retry_count task ∧
        (∀ id', id' ≠ id → tasks s' !! id' = tasks s !! id') ∧
        status_counts s' = status_counts s ∧
        task_queue s' = task_queue s ∧
        lock s' = false.
Proof.
  intros Hl Hid. eexists. split; [by apply update_task_progress_ok|].
  unfold get_task_progress, get_task_status, get_task_error, get_task_retry_count.
  simpl. rewrite lookup_insert_eq. simpl.
  split; [done|]. split; [lia|]. split; [lia|].
  do 3 (split; [done|]). split; [|done].
  intros id' Hne. by rewrite lookup_insert_ne.
Qed.

Lemma update_task_progress_clamps_witness :
  ∃ s', update_task_progress "t1" 150 3 one_completed = Ret true s' ∧
        get_task_progress "t1" s' = 100 ∧
        get_task_status "t1" s' = Some "completed".
Proof.
  destruct (update_task_progress_clamps "t1" 150 3 one_completed
              (mkTask "t1" ∅ "completed" 1 0 0 None 0 2) eq_refl eq_refl)
    as (s' & Hrun & Hget & _ & _ & Hst & _).
  exists s'. split; [exact Hrun|]. split; [exact Hget|exact Hst].
Defined.

(** X9.  For an id that is not in the store the getters answer with their
    defaults ([None] for status and error, 0 for progress and retry count),
    and [update_task_status], [update_task_progress], [update_task_error]
    and [retry_failed_task] raise the exception for an absent task and
    leave the manager exactly as it was. *)
Theorem absent_id_is_reported (id : string) (s : TaskManager) :
  lock s = false →
  tasks s !! id = None →
  get_task_status id s = None ∧
  get_task_progress id s = 0 ∧
  get_task_error id s = None ∧
  get_task_retry_count id s = 0 ∧
  (∀ st now, update_task_status id st now s = Raise TaskNotFound s) ∧
  (∀ v now, update_task_progress id v now s = Raise TaskNotFound s) ∧
  (∀ msg now, update_task_error id msg now s = Raise TaskNotFound s) ∧
  (∀ now, retry_failed_task id now s = Raise TaskNotFound s).
Proof.
  intros Hl Hid.
  unfold get_task_status, get_task_progress, get_task_error, get_task_retry_count.
  rewrite Hid. simpl. do 4 (split; [done|]).
  split; [intros; by apply update_task_status_not_found|].
  split; [intros; by apply update_task_progress_not_found|].
  split; [intros; by apply update_task_error_not_found|].
  intros; by apply retry_failed_task_not_found.
Qed.

Lemma absent_id_is_reported_witness :
  get_task_status "t2" one_pending = None ∧
  retry_failed_task "t2" 1 one_pending = Raise TaskNotFound one_pending.
Proof.
  destruct (absent_id_is_reported "t2" one_pending eq_refl eq_refl)
    as (Hst & _ & _ & _ & _ & _ & _ & Hretry).
  split; [exact Hst|exact (Hretry 1)].
Defined.

(** X10.  [add_task] with the lock free returns the new id; the task is then
    found with status [pending], progress 0, no error, retry count 0 and
    the priority of the payload (1 when the payload has none); its tuple
    [(-priority, id)] is on the queue, which has grown by exactly that
    tuple; the [pending] counter has gone up by one; and every other task
    is as before. *)
Theorem add_task_registers (uid : string) (info : gmap string Z) (now : Z)
    (s : TaskManager) (a : Z) :
  lock s = false →
  status_counts s !! "pending" = Some a →
  ∃ s', add_task uid info now s = Ret uid s' ∧
        get_task_status uid s' = Some "pending" ∧
        get_task_progress uid s' = 0 ∧
        get_task_error uid s' = None ∧
        get_task_retry_count uid s' = 0 ∧
        (priority <$> tasks s' !! uid) = Some (default 1 (info !! "priority")) ∧
        task_queue s' =
          PQ.put (- default 1 (info !! "priority"), uid) (task_queue s) ∧
        (- default 1 (info !! "priority"), uid) ∈ task_queue s' ∧
        length (task_queue s') = S (length (task_queue s)) ∧
        status_counts s' = <["pending" := a + 1]> (status_counts s) ∧
        (∀ id', id' ≠ uid → tasks s' !! id' = tasks s !! id') ∧
        lock s' = false.
Proof.
  intros Hl Ha. eexists. split; [by apply (add_task_ok uid info now s a)|].
  unfold get_task_progress, get_task_status, get_task_error, get_task_retry_count.
  simpl. rewrite lookup_insert_eq. simpl.
  do 6 (split; [done|]).
  split; [apply elem_of_put; by left|].
  split; [apply put_length|]. split; [done|]. split; [|done].
  intros id' Hne. by rewrite lookup_insert_ne.
Qed.

Lemma add_task_registers_witness :
  ∃ s', add_task "t2" {["priority" := 7]} 5 one_pending = Ret "t2" s' ∧
        get_task_status "t2" s' = Some "pending" ∧
        (-7, "t2") ∈ task_queue s' ∧
        status_counts s' = <["pending" := 1 + 1]> (status_counts one_pending).
Proof.
  destruct (add_task_registers "t2" {["priority" := 7]} 5 one_pending 1
              eq_refl eq_refl)
    as (s' & Hrun & Hst & _ & _ & _ & _ & _ & Hin & _ & Hc & _).
  exists s'. split; [exact Hrun|]. split; [exact Hst|]. split; [exact Hin|exact Hc].
Defined.

(** X11.  [retry_failed_task] on an existing task raises, changing nothing,
    unless the status is [failed].  On a failed task it returns [True]: the
    status is [pending] again, the retry count is one higher, the error is
    cleared, the progress and the priority are kept, the tuple
    [(-priority, id)] is put on the queue once more, the [failed] counter
    goes down by one and the [pending] counter up by one, and the other
    tasks stay as they were. *)
Theorem retry_failed_task_requeues (id : string) (now : Z) (s : TaskManager)
    (task : Task) :
  lock s = false →
  tasks s !! id = Some task →
  (status task ≠ "failed" → retry_failed_task id now s = Raise NotFailed s) ∧
  (status task = "failed" →
   ∀ a b, status_counts s !! "failed" = Some a →
          status_counts s !! "pending" = Some b →
     ∃ s', retry_failed_task id now s = Ret true s' ∧
           get_task_status id s' = Some "pending" ∧
           get_task_retry_count id s' = retry_count task + 1 ∧
           get_task_error id s' = None ∧
           get_task_progress id s' = progress task ∧
           (priority <$> tasks s' !! id) = Some (priority task) ∧
           task_queue s' = PQ.put (- priority task, id) (task_queue s) ∧
           status_counts s' =
             <["pending" := b + 1]> (<["failed" := a - 1]> (status_counts s)) ∧
           (∀ id', id' ≠ id → tasks s' !! id' = tasks s !! id') ∧
           lock s' = false).
Proof.
  intros Hl Hid. split.
  - intros Hst. by apply (retry_failed_task_not_failed id now s task).
  - intros Hst a b Ha Hb. eexists.
    split; [by apply (retry_failed_task_ok id now s task a b)|].
    unfold get_task_progress, get_task_status, get_task_error, get_task_retry_count.
    simpl. rewrite lookup_insert_eq. simpl.
    do 7 (split; [done|]). split; [|done].
    intros id' Hne. by rewrite lookup_insert_ne.
Qed.

Lemma retry_failed_task_requeues_witness :
  retry_failed_task "t1" 2 one_pending = Raise NotFailed one_pending ∧
  ∃ s', retry_failed_task "t1" 2 one_failed_early = Ret true s' ∧
        get_task_status "t1" s' = Some "pending" ∧
        get_task_retry_count "t1" s' = 0 + 1 ∧
        get_task_error "t1" s' = None.
Proof.
  split.
  - apply (proj1 (retry_failed_task_requeues "t1" 2 one_pending
                    (mkTask "t1" ∅ "pending" 1 0 0 None 0 0) eq_refl eq_refl)).
    discriminate.
  - destruct (proj2 (retry_failed_task_requeues "t1" 2 one_failed_early
                       (mkTask "t1" ∅ "failed" 1 0 0 (Some "boom") 0 1)
                       eq_refl eq_refl) eq_refl 1 1 eq_refl eq_refl)
      as (s' & Hrun & Hst & Hn & He & _).
    exists s'. split; [exact Hrun|]. split; [exact Hst|]. split; [exact Hn|exact He].
Defined.

(** ** [cleanup_completed_tasks] *)

Lemma lookup_after_deletes_all (ids : list string) (m : gmap string Task)
    (id : string) :
  foldl (λ m id, delete id m) m ids !! id =
    if decide (id ∈ ids) then None else m !! id.
Proof.
  revert m. induction ids as [|i ids IH]; intros m; simpl.
  - destruct (decide (id ∈ [])) as [Hin|_]; [|done].
    by apply elem_of_nil in Hin.
  - rewrite IH.
    destruct (decide (id ∈ ids)) as [Hin|Hin],
             (decide (id ∈ i :: ids)) as [Hin'|Hin']; try done.
    + exfalso. apply Hin'. by apply list_elem_of_further.
    + apply elem_of_cons in Hin' as [->|?]; [|done]. apply lookup_delete_eq.
    + apply lookup_delete_ne. intros ->. apply Hin', list_elem_of_here.
Qed.

(* The store after the clean-up, id by id. *)
Lemma lookup_after_cleanup (s : TaskManager) (id : string) :
  foldl (λ m id, delete id m) (tasks s) (completed_tasks s) !! id =
    match tasks s !! id with
    | Some task => if decide (status task = "completed") then None else Some task
    | None => None
    end.
Proof.
  rewrite lookup_after_deletes_all.
  destruct (decide (id ∈ completed_tasks s)) as [Hin|Hin].
  - apply completed_tasks_spec in Hin as (task & -> & Hst).
    by rewrite decide_True.
  - destruct (tasks s !! id) as [task|] eqn:Hid; [|done].
    rewrite decide_False; [done|]. intros Hst. apply Hin.
    apply completed_tasks_spec. by exists task.
Qed.

Lemma count_completed_after_cleanup (s : TaskManager) :
  count_in "completed"
    (foldl (λ m id, delete id m) (tasks s) (completed_tasks s)) = 0.
Proof.
  rewrite count_in_after_deletes.
  - rewrite decide_True by done. rewrite completed_tasks_length.
    unfold count_status. lia.
  - apply completed_tasks_NoDup.
  - intros id Hid. by apply completed_tasks_spec.
Qed.

(* With no completed task the clean-up returns 0 and changes nothing. *)
Lemma cleanup_nothing_completed (s : TaskManager) (c : Z) :
  lock s = false →
  status_counts s !! "completed" = Some c →
  count_status "completed" s = 0 →
  cleanup_completed_tasks s = Ret 0 s.
Proof.
  intros Hl Hc H0. rewrite (cleanup_completed_tasks_ok s c Hl Hc). rewrite H0.
  assert (completed_tasks s = []) as ->.
  { apply length_zero_iff_nil. pose proof (completed_tasks_length s). lia. }
  simpl. f_equal. destruct s; simpl in *. unfold set_status_counts, set_tasks; simpl.
  f_equal. rewrite insert_id; [done|]. rewrite Hc. f_equal. lia.
Qed.

(** X12.  [cleanup_completed_tasks] with the lock free returns the number of
    tasks whose status is [completed] and deletes exactly these: afterwards
    an id is found if and only if it was found before with another status,
    and then with the same task object; no completed task is left; the
    [completed] counter has gone down by the number returned and the other
    counters are as before; the queue is not touched, so the tuples of the
    deleted tasks stay on it. *)
Theorem cleanup_removes_exactly_completed (s : TaskManager) (c : Z) :
  lock s = false →
  status_counts s !! "completed" = Some c →
  ∃ s', cleanup_completed_tasks s = Ret (count_status "completed" s) s' ∧
        (∀ id, tasks s' !! id =
           match tasks s !! id with
           | Some task =>
               if decide (status task = "completed") then None else Some task
           | None => None
           end) ∧
        count_status "completed" s' = 0 ∧
        status_counts s' =
          <["completed" := c - count_status "completed" s]> (status_counts s) ∧
        task_queue s' = task_queue s ∧
        lock s' = false.
Proof.
  intros Hl Hc. eexists. split; [by apply cleanup_completed_tasks_ok|].
  simpl. split; [apply lookup_after_cleanup|].
  split; [apply count_completed_after_cleanup|]. done.
Qed.

Lemma cleanup_removes_exactly_completed_witness :
  ∃ s', cleanup_completed_tasks one_completed = Ret 1 s' ∧
        tasks s' !! "t1" = None ∧
        task_queue s' = [(-1, "t1")].
Proof.
  destruct (cleanup_removes_exactly_completed one_completed 1 eq_refl eq_refl)
    as (s' & Hrun & Hlook & _ & _ & Hq & _).
  exists s'. split; [exact Hrun|]. split; [|exact Hq].
  rewrite Hlook. vm_compute. reflexivity.
Defined.

(** X13.  A second [cleanup_completed_tasks] right after the first finds
    nothing to delete: it returns 0 and leaves the manager exactly as the
    first call left it. *)
Theorem cleanup_twice (s : TaskManager) (c : Z) :
  lock s = false →
  status_counts s !! "completed" = Some c →
  ∃ s', cleanup_completed_tasks s = Ret (count_status "completed" s) s' ∧
        cleanup_completed_tasks s' = Ret 0 s'.
Proof.
  intros Hl Hc. eexists. split; [by apply cleanup_completed_tasks_ok|].
  apply (cleanup_nothing_completed _ (c - count_status "completed" s)).
  - done.
  - simpl. apply lookup_insert_eq.
  - unfold count_status. simpl. apply count_completed_after_cleanup.
Qed.

Lemma cleanup_twice_witness :
  ∃ s', cleanup_completed_tasks one_completed = Ret 1 s' ∧
        cleanup_completed_tasks s' = Ret 0 s'.
Proof.
  exact (cleanup_twice one_completed 1 eq_refl eq_refl).
Defined.

(** ** Calls in sequence *)

(* Two moves of one unit, there and back, leave the counters as they were. *)
Lemma counters_there_and_back (d : gmap string Z) (old new : string) (a b : Z) :
  d !! old = Some a →
  <[old := a - 1]> d !! new = Some b →
  <[old := a - 1 + 1]>
    (<[new := b + 1 - 1]> (<[new := b + 1]> (<[old := a - 1]> d))) = d.
Proof.
  intros Ha Hb. apply map_eq. intros k.
  destruct (decide (k = old)) as [->|Hko].
  - rewrite lookup_insert_eq, Ha. f_equal. lia.
  - rewrite lookup_insert_ne by done.
    destruct (decide (k = new)) as [->|Hkn].
    + rewrite lookup_insert_eq. rewrite lookup_insert_ne in Hb by done.
      rewrite Hb. f_equal. lia.
    + by rewrite !lookup_insert_ne.
Qed.

(** X14.  Moving an existing task to another of the four statuses with
    [update_task_status] and then back to the status it had succeeds both
    times and restores every counter; the task is as before but for
    [updated_at], and the other tasks and the queue are untouched. *)
Theorem update_task_status_there_and_back (id new_status : string) (t1 t2 : Z)
    (s : TaskManager) (task : Task) :
  well_formed s →
  tasks s !! id = Some task →
  new_status ∈ statuses →
  ∃ s1 s2,
    update_task_status id new_status t1 s = Ret true s1 ∧
    update_task_status id (status task) t2 s1 = Ret true s2 ∧
    get_task_status id s1 = Some new_status ∧
    status_counts s2 = status_counts s ∧
    tasks s2 = <[id := set_updated_at t2 task]> (tasks s) ∧
    task_queue s2 = task_queue s ∧
    lock s2 = false.
Proof.
  intros Hwf Hid Hnew. pose proof Hwf as (Hl & Hdom & Hst).
  destruct (counter_is_Some s (status task) Hwf) as [a Ha]; [by eapply Hst|].
  assert (is_Some (<[status task := a - 1]> (status_counts s) !! new_status))
    as [b Hb].
  { apply elem_of_dom. rewrite dom_insert_lookup_L, Hdom by done.
    by apply elem_of_list_to_set. }
  eexists _, _.
  split; [by apply (update_task_status_ok id new_status t1 s task a b)|].
  split.
  - apply (update_task_status_ok id (status task) t2 _
             (set_updated_at t1 (set_status new_status task)) (b + 1) (a - 1));
      simpl; [done|apply lookup_insert_eq|apply lookup_insert_eq|].
    destruct (decide (status task = new_status)) as [Heq|Hne].
    + rewrite <- Heq in *. rewrite lookup_insert_eq in Hb.
      rewrite lookup_insert_eq. f_equal. simplify_eq. lia.
    + rewrite lookup_insert_ne by done. rewrite lookup_insert_ne by done.
      apply lookup_insert_eq.
  - unfold get_task_status. simpl. rewrite lookup_insert_eq. simpl.
    split; [done|]. split; [by apply counters_there_and_back|].
    split; [|done]. by rewrite insert_insert_eq.
Qed.

Lemma one_pending_reachable : reachable 10 one_pending.
Proof.
  apply (reach_call _ _ (init 10) (AddTask "t1" ∅) 0);
    [|vm_compute; reflexivity|exact I|vm_compute; reflexivity].
  apply reach_init.
Qed.

Lemma one_processing_reachable : reachable 10 one_processing.
Proof.
  apply (reach_call _ _ one_pending (UpdateTaskStatus "t1" "processing") 1);
    [|exact I|exact I|vm_compute; reflexivity].
  apply one_pending_reachable.
Qed.

Lemma update_task_status_there_and_back_witness :
  ∃ s1 s2,
    update_task_status "t1" "failed" 3 one_processing = Ret true s1 ∧
    update_task_status "t1" "processing" 4 s1 = Ret true s2 ∧
    status_counts s2 = status_counts one_processing.
Proof.
  destruct (update_task_status_there_and_back "t1" "failed" 3 4 one_processing
              (mkTask "t1" ∅ "processing" 1 0 0 None 0 1)
              (reachable_by_well_formed _ 10 _ one_processing_reachable) eq_refl)
    as (s1 & s2 & H1 & H2 & _ & Hc & _); [in_statuses|].
  exists s1, s2. split; [exact H1|]. split; [exact H2|exact Hc].
Defined.

Lemma count_in_none (st : string) (m : gmap string Task) :
  (∀ id task, m !! id = Some task → status task ≠ st) → count_in st m = 0.
Proof.
  intros Hno. unfold count_in.
  destruct (filter (λ kv, status kv.2 = st) (map_to_list m)) as [|[i t] l] eqn:Hf;
    [done|].
  assert ((i, t) ∈ filter (λ kv : string * Task, status kv.2 = st) (map_to_list m))
    as Hin by (rewrite Hf; apply list_elem_of_here).
  apply list_elem_of_filter in Hin as [Hst Hin].
  apply elem_of_map_to_list in Hin. by destruct (Hno i t).
Qed.

(* The clean-up when exactly one task, [uid], is completed. *)
Lemma cleanup_single_completed (s : TaskManager) (m : gmap string Task)
    (uid : string) (task : Task) (c : Z) :
  lock s = false →
  tasks s = <[uid := task]> m →
  m !! uid = None →
  status task = "completed" →
  (∀ id t, m !! id = Some t → status t ≠ "completed") →
  status_counts s !! "completed" = Some c →
  cleanup_completed_tasks s =
    Ret 1 (set_status_counts (<["completed" := c - 1]> (status_counts s))
             (set_tasks m s)).
Proof.
  intros Hl Htasks Hfresh Hst Hnone Hc.
  assert (count_status "completed" s = 1) as Hcount.
  { unfold count_status. rewrite Htasks, count_in_insert_None by done.
    rewrite (count_in_none "completed" m) by done.
    by rewrite decide_True. }
  rewrite (cleanup_completed_tasks_ok s c) by done. rewrite Hcount.
  f_equal. f_equal. f_equal.
  apply map_eq. intros id. rewrite (lookup_after_cleanup s id), Htasks.
  destruct (decide (id = uid)) as [->|Hne].
  - rewrite lookup_insert_eq, Hfresh. by rewrite decide_True.
  - rewrite lookup_insert_ne by done.
    destruct (m !! id) as [t|] eqn:Hid; [|done].
    rewrite decide_False; [done|]. by eapply Hnone.
Qed.

(** X15.  A whole life of a task driven by a caller, on a manager that holds
    no completed task: [add_task], then [update_task_status] to
    [processing] and to [completed], then [cleanup_completed_tasks].  Every
    call succeeds, the clean-up returns 1, and afterwards the tasks and all
    counters are exactly what they were before the task was added; only the
    queue differs: the tuple of the deleted task is still on it. *)
Theorem task_life_leaves_only_a_tuple (uid : string) (info : gmap string Z)
    (t0 t1 t2 : Z) (s : TaskManager) :
  well_formed s →
  tasks s !! uid = None →
  (∀ id task, tasks s !! id = Some task → status task ≠ "completed") →
  ∃ s1 s2 s3 s4,
    add_task uid info t0 s = Ret uid s1 ∧
    update_task_status uid "processing" t1 s1 = Ret true s2 ∧
    update_task_status uid "completed" t2 s2 = Ret true s3 ∧
    cleanup_completed_tasks s3 = Ret 1 s4 ∧
    tasks s4 = tasks s ∧
    status_counts s4 = status_counts s ∧
    task_queue s4 =
      PQ.put (- default 1 (info !! "priority"), uid) (task_queue s) ∧
    lock s4 = false.
Proof.
  intros Hwf Hfresh Hnone. pose proof Hwf as (Hl & Hdom & Hst).
  destruct (counter_is_Some s "pending" Hwf) as [np Hnp]; [in_statuses|].
  destruct (counter_is_Some s "processing" Hwf) as [nr Hnr]; [in_statuses|].
  destruct (counter_is_Some s "completed" Hwf) as [nc Hnc]; [in_statuses|].
  set (prio := default 1 (info !! "priority")).
  set (task0 := mkTask uid info "pending" prio 0 0 None t0 t0).
  set (task1 := set_updated_at t1 (set_status "processing" task0)).
  set (task2 := set_updated_at t2 (set_status "completed" task1)).
  eexists _, _, _, _.
  split; [by apply (add_task_ok uid info t0 s np)|].
  split.
  { apply (update_task_status_ok uid "processing" t1 _ task0 (np + 1) nr);
      simpl; [done|apply lookup_insert_eq|apply lookup_insert_eq|].
    by rewrite !lookup_insert_ne. }
  split.
  { apply (update_task_status_ok uid "completed" t2 _ task1 (nr + 1) nc);
      simpl; [done|apply lookup_insert_eq|apply lookup_insert_eq|].
    by rewrite !lookup_insert_ne. }
  split.
  { apply (cleanup_single_completed _ (tasks s) uid task2 (nc + 1));
      simpl; try done.
    - by rewrite !insert_insert_eq.
    - apply lookup_insert_eq. }
  simpl. split; [done|]. split; [|done].
  apply map_eq. intros k.
  repeat (rewrite lookup_insert; case_decide; subst); try done.
  - rewrite Hnc. f_equal. lia.
  - rewrite Hnr. f_equal. lia.
  - rewrite Hnp. f_equal. lia.
Qed.

Lemma task_life_leaves_only_a_tuple_witness :
  ∃ s4, cleanup_completed_tasks
          (state_of (update_task_status "t2" "completed" 7
             (state_of (update_task_status "t2" "processing" 6
                (state_of (add_task "t2" ∅ 5 one_processing)))))) = Ret 1 s4 ∧
        tasks s4 = tasks one_processing ∧
        status_counts s4 = status_counts one_processing ∧
        task_queue s4 = PQ.put (-1, "t2") (task_queue one_processing).
Proof.
  destruct (task_life_leaves_only_a_tuple "t2" ∅ 5 6 7 one_processing
              (reachable_by_well_formed _ 10 _ one_processing_reachable) eq_refl)
    as (s1 & s2 & s3 & s4 & H1 & H2 & H3 & H4 & Ht & Hc & Hq & _).
  - intros id task Hid.
    assert (tasks one_processing =
              {["t1" := mkTask "t1" ∅ "processing" 1 0 0 None 0 1]}) as Heq
      by (vm_compute; reflexivity).
    rewrite Heq in Hid. apply lookup_singleton_Some in Hid as [_ <-]. discriminate.
  - exists s4. rewrite H1. simpl. rewrite H2. simpl. rewrite H3. simpl.
    split; [exact H4|]. split; [exact Ht|]. split; [exact Hc|exact Hq].
Defined.

(** ** What every call keeps of a task *)

Lemma records_ok_insert (s : TaskManager) (id : string) (task : Task) :
  records_ok s →
  task_id task = id → 0 ≤ retry_count task → 0 ≤ progress task ≤ 100 →
  ∀ i t, <[id := task]> (tasks s) !! i = Some t →
    task_id t = i ∧ 0 ≤ retry_count t ∧ 0 ≤ progress t ≤ 100.
Proof.
  intros Hok Hi Hr Hp i t. rewrite lookup_insert_Some.
  intros [[<- <-]|[_ Hlook]]; [done|]. by apply Hok.
Qed.

Lemma exec_records_ok (c : call) (now : Z) (s s' : TaskManager) :
  well_formed s → records_ok s → exec c now s = Some s' →
  records_ok s' ∧ batch_size s' = batch_size s.
Proof.
  intros Hwf Hok Hex. pose proof Hwf as (Hl & Hdom & Hst).
  destruct (counter_is_Some s "pending" Hwf) as [np Hnp]; [in_statuses|].
  destruct (counter_is_Some s "processing" Hwf) as [nr Hnr]; [in_statuses|].
  destruct (counter_is_Some s "completed" Hwf) as [nc Hnc]; [in_statuses|].
  destruct (counter_is_Some s "failed" Hwf) as [nf Hnf]; [in_statuses|].
  destruct c as [uid info|id st| |id|id v|id msg|].
  - exec_by (add_task_ok uid info now s np Hl Hnp) Hex. split; [|done].
    unfold records_ok. simpl. by apply records_ok_insert.
  - destruct (tasks s !! id) as [task|] eqn:Hid.
    + destruct (Hok id task Hid) as (Hi & Hr & Hp).
      destruct (counter_is_Some s (status task) Hwf) as [a Ha]; [by eapply Hst|].
      destruct (<[status task := a - 1]> (status_counts s) !! st) as [n|] eqn:Hn.
      * exec_by (update_task_status_ok id st now s task a n Hl Hid Ha Hn) Hex.
        split; [|done]. unfold records_ok. simpl. by apply records_ok_insert.
      * by exec_by (update_task_status_unknown id st now s task a Hl Hid Ha Hn) Hex.
    + by exec_by (update_task_status_not_found id st now s Hl Hid) Hex.
  - unfold exec, perform in Hex.
    pose proof (get_next_batch_returns now s Hl) as Hr.
    destruct (get_next_batch now s) as [bt s0| |]; simpl in Hex; try done.
    injection Hex as <-. destruct Hr as (_ & Ht & _ & _ & Hb).
    split; [|done]. unfold records_ok. by rewrite Ht.
  - destruct (tasks s !! id) as [task|] eqn:Hid.
    + destruct (Hok id task Hid) as (Hi & Hr & Hp).
      destruct (decide (status task = "failed")) as [Hf|Hf].
      * exec_by (retry_failed_task_ok id now s task nf np Hl Hid Hf Hnf Hnp) Hex.
        split; [|done]. unfold records_ok. simpl.
        apply records_ok_insert; simpl; try done. lia.
      * by exec_by (retry_failed_task_not_failed id now s task Hl Hid Hf) Hex.
    + by exec_by (retry_failed_task_not_found id now s Hl Hid) Hex.
  - destruct (tasks s !! id) as [task|] eqn:Hid.
    + destruct (Hok id task Hid) as (Hi & Hr & Hp).
      exec_by (update_task_progress_ok id v now s task Hl Hid) Hex.
      split; [|done]. unfold records_ok. simpl.
      apply records_ok_insert; simpl; try done. lia.
    + by exec_by (update_task_progress_not_found id v now s Hl Hid) Hex.
  - destruct (tasks s !! id) as [task|] eqn:Hid.
    + destruct (Hok id task Hid) as (Hi & Hr & Hp).
      exec_by (update_task_error_ok id msg now s task nr nf Hl Hid Hnr Hnf) Hex.
      split; [|done]. unfold records_ok. simpl. by apply records_ok_insert.
    + by exec_by (update_task_error_not_found id msg now s Hl Hid) Hex.
  - exec_by (cleanup_completed_tasks_ok s nc Hl Hnc) Hex. split; [|done].
    intros i t Hi. simpl in Hi. apply lookup_after_deletes in Hi. by apply Hok.
Qed.

(** X16.  In every state reached by calls of the public methods, whatever
    their arguments, [batch_size] is the one the manager was created with,
    every task is stored under its own [task_id], no retry count is
    negative and every progress is within 0..100, so [get_task_progress]
    and [get_task_retry_count] answer within these ranges for every id. *)
Theorem reachable_states_keep_ranges (b : Z) (s : TaskManager) :
  reachable b s →
  batch_size s = b ∧
  records_ok s ∧
  (∀ id, 0 ≤ get_task_progress id s ≤ 100) ∧
  (∀ id, 0 ≤ get_task_retry_count id s).
Proof.
  intros Hreach.
  assert (batch_size s = b ∧ records_ok s) as [Hb Hok].
  { induction Hreach as [|s c now s' Hreach IH _ _ Hex].
    - split; [done|]. intros id task. simpl. by rewrite lookup_empty.
    - destruct IH as [Hb Hok].
      destruct (exec_records_ok c now s s') as [Hok' Hb']; try done.
      + by eapply reachable_by_well_formed.
      + split; [congruence|done]. }
  do 2 (split; [done|]).
  unfold get_task_progress, get_task_retry_count.
  split; intros id; destruct (tasks s !! id) as [task|] eqn:Hid; simpl; try lia;
    destruct (Hok id task Hid) as (_ & ? & ?); lia.
Qed.

Lemma reachable_states_keep_ranges_witness :
  batch_size one_processing = 10 ∧
  records_ok one_processing ∧
  (∀ id, 0 ≤ get_task_progress id one_processing ≤ 100) ∧
  (∀ id, 0 ≤ get_task_retry_count id one_processing).
Proof.
  exact (reachable_states_keep_ranges 10 one_processing one_processing_reachable).
Defined.

(** X17.  No call changes what a task was created with: a task found both
    before and after a call, other than an [add_task] that overwrites it,
    has the same [task_id], payload, priority and creation time, and its
    retry count has not gone down. *)
Theorem call_keeps_creation_fields (c : call) (now : Z) (s s' : TaskManager)
    (id : string) (task task' : Task) :
  well_formed s →
  fresh_uid c s →
  exec c now s = Some s' →
  tasks s !! id = Some task →
  tasks s' !! id = Some task' →
  task_id task' = task_id task ∧
  video_info task' = video_info task ∧
  priority task' = priority task ∧
  created_at task' = created_at task ∧
  retry_count task ≤ retry_count task'.
Proof.
  intros Hwf Hfresh Hex Hid Hid'. pose proof Hwf as (Hl & Hdom & Hst).
  destruct (counter_is_Some s "pending" Hwf) as [np Hnp]; [in_statuses|].
  destruct (counter_is_Some s "processing" Hwf) as [nr Hnr]; [in_statuses|].
  destruct (counter_is_Some s "completed" Hwf) as [nc Hnc]; [in_statuses|].
  destruct (counter_is_Some s "failed" Hwf) as [nf Hnf]; [in_statuses|].
  assert (∀ i t, tasks s !! i = Some t →
            task_id t = task_id t ∧ video_info t = video_info t ∧
            priority t = priority t ∧ created_at t = created_at t ∧
            retry_count t ≤ retry_count t) as Hsame by (intros; repeat split; lia).
  assert (∀ j (u u' : Task),
            tasks s !! j = Some u →
            task_id u' = task_id u → video_info u' = video_info u →
            priority u' = priority u → created_at u' = created_at u →
            retry_count u ≤ retry_count u' →
            <[j := u']> (tasks s) !! id = Some task' →
            task_id task' = task_id task ∧ video_info task' = video_info task ∧
            priority task' = priority task ∧ created_at task' = created_at task ∧
            retry_count task ≤ retry_count task') as Hupd.
  { intros j u u' Hj H1 H2 H3 H4 H5. rewrite lookup_insert_Some.
    intros [[-> <-]|[_ Hlook]].
    - rewrite Hid in Hj. by injection Hj as <-.
    - rewrite Hid in Hlook. injection Hlook as <-. by apply (Hsame id). }
  destruct c as [uid info|i st| |i|i v|i msg|]; simpl in Hfresh.
  - exec_by (add_task_ok uid info now s np Hl Hnp) Hex. simpl in Hid'.
    rewrite lookup_insert_ne in Hid' by (intros ->; congruence).
    rewrite Hid in Hid'. injection Hid' as <-. by apply (Hsame id).
  - destruct (tasks s !! i) as [u|] eqn:Hi.
    + destruct (counter_is_Some s (status u) Hwf) as [a Ha]; [by eapply Hst|].
      destruct (<[status u := a - 1]> (status_counts s) !! st) as [n|] eqn:Hn.
      * exec_by (update_task_status_ok i st now s u a n Hl Hi Ha Hn) Hex.
        simpl in Hid'. by apply (Hupd i u _ Hi) in Hid'.
      * exec_by (update_task_status_unknown i st now s u a Hl Hi Ha Hn) Hex.
        simpl in Hid'. rewrite Hid in Hid'. injection Hid' as <-. by apply (Hsame id).
    + exec_by (update_task_status_not_found i st now s Hl Hi) Hex.
      rewrite Hid in Hid'. injection Hid' as <-. by apply (Hsame id).
  - unfold exec, perform in Hex.
    pose proof (get_next_batch_returns now s Hl) as Hr.
    destruct (get_next_batch now s) as [bt s0| |]; simpl in Hex; try done.
    injection Hex as <-. destruct Hr as (_ & Ht & _).
    rewrite Ht, Hid in Hid'. injection Hid' as <-. by apply (Hsame id).
  - destruct (tasks s !! i) as [u|] eqn:Hi.
    + destruct (decide (status u = "failed")) as [Hf|Hf].
      * exec_by (retry_failed_task_ok i now s u nf np Hl Hi Hf Hnf Hnp) Hex.
        simpl in Hid'. apply (Hupd i u _ Hi) in Hid'; simpl; try done. lia.
      * exec_by (retry_failed_task_not_failed i now s u Hl Hi Hf) Hex.
        rewrite Hid in Hid'. injection Hid' as <-. by apply (Hsame id).
    + exec_by (retry_failed_task_not_found i now s Hl Hi) Hex.
      rewrite Hid in Hid'. injection Hid' as <-. by apply (Hsame id).
  - destruct (tasks s !! i) as [u|] eqn:Hi.
    + exec_by (update_task_progress_ok i v now s u Hl Hi) Hex.
      simpl in Hid'. by apply (Hupd i u _ Hi) in Hid'.
    + exec_by (update_task_progress_not_found i v now s Hl Hi) Hex.
      rewrite Hid in Hid'. injection Hid' as <-. by apply (Hsame id).
  - destruct (tasks s !! i) as [u|] eqn:Hi.
    + exec_by (update_task_error_ok i msg now s u nr nf Hl Hi Hnr Hnf) Hex.
      simpl in Hid'. by apply (Hupd i u _ Hi) in Hid'.
    + exec_by (update_task_error_not_found i msg now s Hl Hi) Hex.
      rewrite Hid in Hid'. injection Hid' as <-. by apply (Hsame id).
  - exec_by (cleanup_completed_tasks_ok s nc Hl Hnc) Hex. simpl in Hid'.
    apply lookup_after_deletes in Hid'. rewrite Hid in Hid'.
    injection Hid' as <-. by apply (Hsame id).
Qed.

Lemma call_keeps_creation_fields_witness :
  priority (mkTask "t1" ∅ "pending" 1 1 0 None 0 2) = 1 ∧
  retry_count (mkTask "t1" ∅ "failed" 1 0 0 (Some "boom") 0 1) ≤
    retry_count (mkTask "t1" ∅ "pending" 1 1 0 None 0 2).
Proof.
  destruct (call_keeps_creation_fields (RetryFailedTask "t1") 2
              one_failed_early
              (state_of (retry_failed_task "t1" 2 one_failed_early)) "t1"
              (mkTask "t1" ∅ "failed" 1 0 0 (Some "boom") 0 1)
              (mkTask "t1" ∅ "pending" 1 1 0 None 0 2))
    as (_ & _ & Hp & _ & Hr).
  - apply (reachable_by_well_formed (λ _ _, True) 10).
    apply (reach_call _ _ one_pending (UpdateTaskError "t1" "boom") 1);
      [|exact I|exact I|vm_compute; reflexivity].
    apply one_pending_reachable.
  - exact I.
  - vm_compute. reflexivity.
  - vm_compute. reflexivity.
  - vm_compute. reflexivity.
  - split; [exact Hp|exact Hr].
Defined.

(** ** Failing and retrying over and over *)

Lemma exec_update_task_error (id msg : string) (now : Z) (s s1 : TaskManager) :
  update_task_error id msg now s = Ret true s1 →
  exec (UpdateTaskError id msg) now s = Some s1.
Proof. intros H. unfold exec, perform. by rewrite H. Qed.

Lemma exec_retry_failed_task (id : string) (now : Z) (s s1 : TaskManager) :
  retry_failed_task id now s = Ret true s1 →
  exec (RetryFailedTask id) now s = Some s1.
Proof. intros H. unfold exec, perform. by rewrite H. Qed.

(** X18.  There is no limit on retries.  On an existing task, in any
    status, [n] rounds of [update_task_error] followed by
    [retry_failed_task] all succeed; afterwards the retry count is [n]
    higher, the priority is the same, the queue is [n] tuples longer (each
    retry puts one more tuple for the same id) and, when [n] is not 0, the
    task is pending without error. *)
Theorem fail_and_retry_counts (n : nat) (id message : string) (now : Z)
    (s : TaskManager) (task : Task) :
  well_formed s →
  tasks s !! id = Some task →
  ∃ s' task',
    fail_and_retry n id message now s = Some s' ∧
    tasks s' !! id = Some task' ∧
    retry_count task' = retry_count task + Z.of_nat n ∧
    priority task' = priority task ∧
    length (task_queue s') = (length (task_queue s) + n)%nat ∧
    (n ≠ 0%nat → status task' = "pending" ∧ error task' = None) ∧
    well_formed s'.
Proof.
  revert s task. induction n as [|n IH]; intros s task Hwf Hid.
  - exists s, task. simpl. split; [done|]. split; [done|]. split; [lia|].
    split; [done|]. split; [lia|]. by split.
  - pose proof Hwf as (Hl & _).
    destruct (counter_is_Some s "pending" Hwf) as [np Hnp]; [in_statuses|].
    destruct (counter_is_Some s "processing" Hwf) as [nr Hnr]; [in_statuses|].
    destruct (counter_is_Some s "failed" Hwf) as [nf Hnf]; [in_statuses|].
    pose proof (update_task_error_ok id message now s task nr nf Hl Hid Hnr Hnf)
      as H1.
    set (task1 := set_updated_at now (set_status "failed"
                    (set_error (Some message) task))) in H1.
    match type of H1 with _ = Ret true ?x => set (s1 := x) in H1 end.
    assert (well_formed s1) as Hwf1
      by (eapply exec_well_formed; [exact Hwf|by apply exec_update_task_error]).
    assert (retry_failed_task id now s1 =
              Ret true
                (set_task_queue (PQ.put (- priority task1, id) (task_queue s1))
                   (set_status_counts
                      (<["pending" := np + 1]>
                         (<["failed" := nf + 1 - 1]> (status_counts s1)))
                      (set_tasks
                         (<[id := set_updated_at now (set_error None
                                    (set_retry_count (retry_count task1 + 1)
                                       (set_status "pending" task1)))]> (tasks s1))
                         s1)))) as H2.
    { apply retry_failed_task_ok; subst s1; simpl; try done.
      - apply lookup_insert_eq.
      - apply lookup_insert_eq.
      - by rewrite !lookup_insert_ne. }
    match type of H2 with _ = Ret true ?x => set (s2 := x) in H2 end.
    assert (well_formed s2) as Hwf2
      by (eapply exec_well_formed; [exact Hwf1|by apply exec_retry_failed_task]).
    set (task2 := set_updated_at now (set_error None
                    (set_retry_count (retry_count task1 + 1)
                       (set_status "pending" task1)))).
    assert (tasks s2 !! id = Some task2) as Hid2
      by (subst s2; simpl; apply lookup_insert_eq).
    destruct (IH s2 task2 Hwf2 Hid2)
      as (s' & task' & Hrun & Hid' & Hcount & Hprio & Hlen & Hst & Hwf').
    exists s', task'. split; [simpl; by rewrite H1, H2|].
    split; [done|]. split; [rewrite Hcount; subst task2 task1; simpl; lia|].
    split; [by rewrite Hprio|]. split.
    + rewrite Hlen. subst s2 s1. simpl. rewrite put_length. lia.
    + split; [|done]. intros _. destruct n as [|n].
      * simpl in Hrun. injection Hrun as <-. rewrite Hid2 in Hid'.
        by injection Hid' as <-.
      * by apply Hst.
Qed.

Lemma fail_and_retry_counts_witness :
  ∃ s' task',
    fail_and_retry 3 "t1" "boom" 2 one_processing = Some s' ∧
    tasks s' !! "t1" = Some task' ∧
    retry_count task' = 0 + 3 ∧
    length (task_queue s') = (1 + 3)%nat.
Proof.
  destruct (fail_and_retry_counts 3 "t1" "boom" 2 one_processing
              (mkTask "t1" ∅ "processing" 1 0 0 None 0 1)
              (reachable_by_well_formed _ 10 _ one_processing_reachable) eq_refl)
    as (s' & task' & Hrun & Hid & Hcount & _ & Hlen & _).
  exists s', task'. split; [exact Hrun|]. split; [exact Hid|].
  split; [exact Hcount|exact Hlen].
Defined.

(** ** Pending tasks stay on the queue *)








(** ** Tuples of deleted tasks *)

Lemma set_task_queue_same (s : TaskManager) (q : PQ.t) :
  task_queue s = q → set_task_queue q s = s.
Proof. intros <-. by destruct s. Qed.

(* The loop on a queue whose ids are all absent from the store: one tuple
   goes per round and nothing else happens. *)
Lemma next_batch_loop_absent (now : Z) (n : nat) (l : scan) (s : TaskManager) :
  Z.of_nat (length (batch l)) < batch_size s →
  (∀ e, e ∈ task_queue s → tasks s !! e.2 = None) →
  ∃ l', next_batch_loop now n l s =
          Finished l' (set_task_queue (drop n (task_queue s)) s) ∧
        batch l' = batch l.
Proof.
  revert l s. induction n as [|n IH]; intros l s Hb Habs; simpl.
  - exists l. by rewrite drop_0, set_task_queue_same.
  - unfold next_batch_iter. rewrite bool_decide_false by lia.
    destruct (task_queue s) as [|[np id] q] eqn:Hq; simpl.
    + exists l. by rewrite set_task_queue_same.
    + assert (∀ l1, batch l1 = batch l →
                ∃ l', next_batch_loop now n l1 (set_task_queue q s) =
                        Finished l' (set_task_queue (drop n q) s) ∧
                      batch l' = batch l) as Hnext.
      { intros l1 Hl1.
        destruct (IH l1 (set_task_queue q s)) as (l' & Hrun & Hbl).
        - simpl. by rewrite Hl1.
        - simpl. intros e He. apply Habs. rewrite ?Hq. by apply list_elem_of_further.
        - exists l'. simpl in Hrun. split; [exact Hrun|congruence]. }
      case_bool_decide; [by apply Hnext|].
      assert (tasks s !! id = None) as ->
        by (apply (Habs (np, id)); rewrite ?Hq; apply list_elem_of_here).
      by apply Hnext.
Qed.

(** X20.  When [batch_size] is positive and no tuple on the queue names a
    task that is still in the store (their tasks have been cleaned up),
    [get_next_batch] returns the empty batch and removes exactly the first
    [min(qsize, 2 * batch_size)] tuples from the queue, changing nothing
    else; a queue of at most [2 * batch_size] such tuples is emptied by one
    call. *)
Theorem get_next_batch_drops_tuples_of_absent_tasks (now : Z) (s : TaskManager) :
  lock s = false →
  0 < batch_size s →
  (∀ e, e ∈ task_queue s → tasks s !! e.2 = None) →
  get_next_batch now s =
    Ret [] (set_task_queue
              (drop (Z.to_nat (Z.min (PQ.qsize (task_queue s)) (batch_size s * 2)))
                 (task_queue s)) s) ∧
  (PQ.qsize (task_queue s) ≤ batch_size s * 2 →
   get_next_batch now s = Ret [] (set_task_queue [] s)).
Proof.
  intros Hl Hb Habs.
  assert (get_next_batch now s =
            Ret [] (set_task_queue
                      (drop (Z.to_nat (Z.min (PQ.qsize (task_queue s))
                                         (batch_size s * 2)))
                         (task_queue s)) s)) as Hrun.
  { unfold get_next_batch. rewrite with_lock_free by done.
    unfold next_batch_scan, scan_bound.
    destruct (next_batch_loop_absent now
                (Z.to_nat (Z.min (PQ.qsize (task_queue (set_lock true s)))
                             (batch_size (set_lock true s) * 2)))
                scan0 (set_lock true s)) as (l' & -> & Hbl); [simpl; lia|done|].
    simpl in *. rewrite Hbl. f_equal. destruct s; simpl in *; by subst. }
  split; [exact Hrun|].
  intros Hsmall. rewrite Hrun. do 2 f_equal.
  apply drop_ge. unfold PQ.qsize in *. lia.
Qed.

Lemma get_next_batch_drops_tuples_of_absent_tasks_witness :
  task_queue (state_of (cleanup_completed_tasks one_completed)) = [(-1, "t1")] ∧
  get_next_batch 4 (state_of (cleanup_completed_tasks one_completed)) =
    Ret [] (set_task_queue [] (state_of (cleanup_completed_tasks one_completed))).
Proof.
  split; [vm_compute; reflexivity|].
  apply (get_next_batch_drops_tuples_of_absent_tasks 4
           (state_of (cleanup_completed_tasks one_completed)) eq_refl eq_refl).
  - intros e _.
    assert (tasks (state_of (cleanup_completed_tasks one_completed)) = ∅) as ->
      by (vm_compute; reflexivity).
    apply lookup_empty.
  - vm_compute. discriminate.
Defined.
